(** * RSS news aggregator: fetch, normalise, sort, filter, display

    A shallow embedding of [rss-feeds-tutorial-script.py] and the
    properties of its pipeline.

    Modelling conventions.
    - Python text is a [str]: a sequence of Unicode code points.  The
      string literals of this file are read as UTF-8, one character
      for each code point.
    - [str.lower] follows CPython: an ASCII letter by the fixed rule,
      the capital sigma by its context, every other character by the
      lowercase mapping of the Unicode database.  The database (the
      mapping and the two character properties that the sigma rule
      reads) is a parameter of the functions that lower text.
    - [print] and [time.sleep] are recorded, in order, in a trace of
      events that every printing function threads through.
    - An exception is a value of type [exn]; code that may raise returns
      a [result].
    - The two external libraries are parameters of the functions that
      call them: [feedparser.parse] and [dateutil.parser.parse]. *)

From Stdlib Require Import List Bool Arith Lia ZArith NArith.
From Stdlib.Strings Require Byte.
From Stdlib Require Import Permutation Sorted.
Import ListNotations.

(** ** Text *)

(** A character is its code point. *)
Definition char : Set := N.
Bind Scope N_scope with char.

Inductive str : Set :=
| EmptyString
| String (c : char) (s : str).

Declare Scope str_scope.
Delimit Scope str_scope with str.
Bind Scope str_scope with str.

(** The reading and the printing of string literals. *)
Module Utf8.

Local Open Scope N_scope.

Definition continuation (b : Byte.byte) : N := N.land (Byte.to_N b) 63.

Fixpoint decode (bytes : list Byte.byte) : str :=
  match bytes with
  | [] => EmptyString
  | b0 :: rest =>
      let n := Byte.to_N b0 in
      if n <? 192 then String n (decode rest)
      else if n <? 224 then
        match rest with
        | b1 :: rest' =>
            String (N.land n 31 * 64 + continuation b1) (decode rest')
        | _ => String n EmptyString
        end
      else if n <? 240 then
        match rest with
        | b1 :: b2 :: rest' =>
            String ((N.land n 15 * 64 + continuation b1) * 64
                    + continuation b2)
                   (decode rest')
        | _ => String n EmptyString
        end
      else
        match rest with
        | b1 :: b2 :: b3 :: rest' =>
            String (((N.land n 7 * 64 + continuation b1) * 64
                     + continuation b2) * 64 + continuation b3)
                   (decode rest')
        | _ => String n EmptyString
        end
  end.

Definition byte_of (n : N) : Byte.byte :=
  match Byte.of_N n with
  | Some b => b
  | None => Byte.x3f
  end.

Definition encode_char (c : N) : list Byte.byte :=
  if c <? 128 then [byte_of c]
  else if c <? 2048 then
    [byte_of (192 + c / 64); byte_of (128 + c mod 64)]
  else if c <? 65536 then
    [byte_of (224 + c / 4096); byte_of (128 + (c / 64) mod 64);
     byte_of (128 + c mod 64)]
  else
    [byte_of (240 + c / 262144); byte_of (128 + (c / 4096) mod 64);
     byte_of (128 + (c / 64) mod 64); byte_of (128 + c mod 64)].

Fixpoint encode (s : str) : list Byte.byte :=
  match s with
  | EmptyString => []
  | String c s' => encode_char c ++ encode s'
  end.

End Utf8.

String Notation str Utf8.decode Utf8.encode : str_scope.

Open Scope str_scope.
Open Scope list_scope.

Module Text.

(** [len(s)] *)
Fixpoint length (s : str) : nat :=
  match s with
  | EmptyString => 0
  | String _ s' => S (length s')
  end.

(** [s + t] *)
Fixpoint append (s t : str) : str :=
  match s with
  | EmptyString => t
  | String c s' => String c (append s' t)
  end.

Notation "s ++ t" := (append s t) : str_scope.

(** [s == t] *)
Fixpoint eqb (s t : str) : bool :=
  match s, t with
  | EmptyString, EmptyString => true
  | String a s', String b t' => N.eqb a b && eqb s' t'
  | _, _ => false
  end.

(** [s[:n]] for a non-negative [n]. *)
Fixpoint take (n : nat) (s : str) : str :=
  match n, s with
  | S n', String c s' => String c (take n' s')
  | _, _ => EmptyString
  end.

(** [s * n] *)
Fixpoint replicate (n : nat) (s : str) : str :=
  match n with
  | O => EmptyString
  | S n' => s ++ replicate n' s
  end.

Fixpoint of_uint (d : Decimal.uint) : str :=
  match d with
  | Decimal.Nil => ""
  | Decimal.D0 d' => "0" ++ of_uint d'
  | Decimal.D1 d' => "1" ++ of_uint d'
  | Decimal.D2 d' => "2" ++ of_uint d'
  | Decimal.D3 d' => "3" ++ of_uint d'
  | Decimal.D4 d' => "4" ++ of_uint d'
  | Decimal.D5 d' => "5" ++ of_uint d'
  | Decimal.D6 d' => "6" ++ of_uint d'
  | Decimal.D7 d' => "7" ++ of_uint d'
  | Decimal.D8 d' => "8" ++ of_uint d'
  | Decimal.D9 d' => "9" ++ of_uint d'
  end.

(** [str(n)] for a non-negative integer. *)
Definition of_nat (n : nat) : str := of_uint (Nat.to_uint n).

(** [str(z)] for an integer. *)
Definition of_Z (z : Z) : str :=
  match Z.to_int z with
  | Decimal.Pos d => of_uint d
  | Decimal.Neg d => "-" ++ of_uint d
  end.

Definition is_ascii_char (c : char) : bool := (c <? 128)%N.

(** [s.isascii()] *)
Fixpoint isascii (s : str) : bool :=
  match s with
  | EmptyString => true
  | String c s' => is_ascii_char c && isascii s'
  end.

Definition is_upper (c : char) : bool := (65 <=? c)%N && (c <=? 90)%N.

(** The lower-case form of an ASCII character. *)
Definition lower_char (c : char) : char :=
  if is_upper c then (c + 32)%N else c.

(** What [str.lower] reads in the Unicode database: the lowercase
    mapping of a character (one to three characters) and the properties
    Cased and Case_Ignorable. *)
Record unicode_db : Type := mkUnicode {
  to_lower_full : char -> str;
  is_cased : char -> bool;
  is_case_ignorable : char -> bool
}.

Definition capital_sigma : char := 931%N.
Definition small_sigma : char := 963%N.
Definition final_small_sigma : char := 962%N.

(** The first character of [s] that is not case-ignorable. *)
Fixpoint skip_ignorable (db : unicode_db) (s : str) : option char :=
  match s with
  | EmptyString => None
  | String c s' =>
      if is_case_ignorable db c then skip_ignorable db s' else Some c
  end.

(** A capital sigma becomes the final small sigma when a cased
    character comes before it and none comes after it, case-ignorable
    characters aside; [before] holds the text in front of the sigma,
    nearest character first. *)
Definition handle_capital_sigma (db : unicode_db) (before after : str)
  : char :=
  match skip_ignorable db before with
  | Some c =>
      if is_cased db c then
        match skip_ignorable db after with
        | Some c' => if is_cased db c' then small_sigma else final_small_sigma
        | None => final_small_sigma
        end
      else small_sigma
  | None => small_sigma
  end.

(** The lower-case form of the character [c] between [before] and
    [after]. *)
Definition lower_ucs4 (db : unicode_db) (before : str) (c : char)
    (after : str) : str :=
  if (c =? capital_sigma)%N
  then String (handle_capital_sigma db before after) ""
  else if is_ascii_char c then String (lower_char c) ""
  else to_lower_full db c.

Fixpoint do_lower (db : unicode_db) (before s : str) : str :=
  match s with
  | EmptyString => ""
  | String c after =>
      lower_ucs4 db before c after ++ do_lower db (String c before) after
  end.

(** [s.lower()] *)
Definition lower (db : unicode_db) (s : str) : str := do_lower db "" s.

(** The lower-case form of ASCII text: each letter on its own. *)
Fixpoint lower_ascii (s : str) : str :=
  match s with
  | EmptyString => EmptyString
  | String c s' => String (lower_char c) (lower_ascii s')
  end.

(** [s.startswith(p)] *)
Fixpoint starts_with (p s : str) : bool :=
  match p, s with
  | EmptyString, _ => true
  | String a p', String b s' => N.eqb a b && starts_with p' s'
  | String _ _, EmptyString => false
  end.

(** [needle in haystack] *)
Fixpoint contains (needle haystack : str) : bool :=
  starts_with needle haystack ||
  match haystack with
  | EmptyString => false
  | String _ h' => contains needle h'
  end.

Definition newline : str := String 10%N EmptyString.

End Text.

Notation "s ++ t" := (Text.append s t) : str_scope.
Notation "s =? t" := (Text.eqb s t) : str_scope.

(** ** Exceptions *)

Record exn : Type := mkExn { exn_type : str; exn_str : str }.

Inductive result (A : Type) : Type :=
| Ok (a : A)
| Raise (e : exn).
Arguments Ok {A} a.
Arguments Raise {A} e.

Definition bind {A B : Type} (m : result A) (k : A -> result B) : result B :=
  match m with
  | Ok a => k a
  | Raise e => Raise e
  end.

(** [try: m  except: h e] with a handler that catches everything. *)
Definition try_except {A : Type} (m : result A) (h : exn -> result A) : result A :=
  match m with
  | Ok a => Ok a
  | Raise e => h e
  end.

Declare Scope result_scope.
Delimit Scope result_scope with result.
Notation "x <- m ;; k" := (bind m (fun x => k))
  (at level 61, m at next level, right associativity) : result_scope.

(** ** Output *)

Inductive event : Type :=
| Print (line : str)
| Sleep (milliseconds : N).

Definition trace : Type := list event.

(** ** Data model *)

(** A raw feed entry: the keys the script reads from it, each of which
    may be absent. *)
Record entry : Type := mkEntry {
  e_title : option str;
  e_link : option str;
  e_summary : option str;
  e_description : option str;
  e_published : option str;
  e_updated : option str
}.

Record feed : Type := mkFeed { entries : list entry }.

(** The dictionary built for each entry. *)
Record article : Type := mkArticle {
  title : str;
  link : str;
  description : str;
  published : str;
  source : str
}.

(** [d.get(key, default)] on an optional field. *)
Definition get {A : Type} (field : option A) (default : A) : A :=
  match field with
  | Some v => v
  | None => default
  end.

(** ** Fetcher *)

Section Fetcher.

(** [feedparser.parse(url)]: the feed, or the exception it raised. *)
Variable feedparser_parse : str -> result feed.

Definition make_article (source_name : str) (e : entry) : article :=
  {| title := get (e_title e) "No title";
     link := get (e_link e) "";
     description := get (e_summary e) (get (e_description e) "No description");
     published := get (e_published e) (get (e_updated e) "");
     source := source_name |}.

(** The body of the [for entry in feed.entries] loop. *)
Definition append_entry (source_name : str)
    (all_articles : list article) (e : entry) : list article :=
  all_articles ++ [make_article source_name e].

(** One iteration of the loop over [feed_dict.items()]. *)
Definition fetch_source (st : list article * trace) (item : str * str)
  : list article * trace :=
  let '(all_articles, out) := st in
  let '(source_name, feed_url) := item in
  let out := out ++ [Print ("Fetching " ++ source_name ++ "...")] in
  let '(all_articles, out) :=
    match feedparser_parse feed_url with
    | Ok f =>
        (fold_left (append_entry source_name) (entries f) all_articles,
         out ++ [Print ("  ✓ Found " ++ Text.of_nat (List.length (entries f))
                        ++ " articles")])
    | Raise e =>
        (all_articles,
         out ++ [Print ("  ✗ Error fetching " ++ source_name ++ ": "
                        ++ exn_str e)])
    end in
  (all_articles, out ++ [Sleep 500]).

(** [fetch_all_feeds(feed_dict)], started with the output so far. *)
Definition fetch_all_feeds (feed_dict : list (str * str)) (out : trace)
  : list article * trace :=
  fold_left fetch_source feed_dict ([], out).

(** What one source adds to the result. *)
Definition contribution (item : str * str) : list article :=
  match feedparser_parse (snd item) with
  | Ok f => map (make_article (fst item)) (entries f)
  | Raise _ => []
  end.

Definition fails (item : str * str) : Prop :=
  exists e, feedparser_parse (snd item) = Raise e.

Definition parsed_entries (item : str * str) : nat :=
  match feedparser_parse (snd item) with
  | Ok f => List.length (entries f)
  | Raise _ => 0
  end.

End Fetcher.

(** The feed registry of the script. *)
Definition RSS_FEEDS : list (str * str) :=
  [ ("BBC News", "http://feeds.bbci.co.uk/news/rss.xml");
    ("TechCrunch", "https://techcrunch.com/feed/");
    ("The Guardian", "https://www.theguardian.com/world/rss");
    ("NPR", "https://feeds.npr.org/1001/rss.xml") ].

(** ** Dates *)

(** A [datetime] is either naive (no time zone; microseconds since
    0001-01-01 00:00:00) or aware (a point on the UTC time line, in
    microseconds relative to the same origin).  Ordering compares two
    naive values, or two aware values, and raises [TypeError] on a naive
    and an aware one. *)
Inductive datetime : Type :=
| Naive (us : N)
| Aware (utc_us : Z).

(** [datetime.min] *)
Definition datetime_min : datetime := Naive 0.

Definition naive_aware_error : exn :=
  mkExn "TypeError" "can't compare offset-naive and offset-aware datetimes".

(** [a < b] *)
Definition datetime_lt (a b : datetime) : result bool :=
  match a, b with
  | Naive x, Naive y => Ok (N.ltb x y)
  | Aware x, Aware y => Ok (Z.ltb x y)
  | _, _ => Raise naive_aware_error
  end.

Definition is_naive (d : datetime) : bool :=
  match d with
  | Naive _ => true
  | Aware _ => false
  end.

Section DateParser.

(** [dateutil.parser.parse(s)]: the date, or the exception it raised. *)
Variable date_parser_parse : str -> result datetime.

Definition parse_date (date_string : str) : result datetime :=
  try_except (date_parser_parse date_string) (fun _ => Ok datetime_min).

End DateParser.

(** ** Sorting *)

Section Sorted.

Local Open Scope result_scope.

Variables A K : Type.
Variable lt : K -> K -> result bool.

(** Keys are computed once per item, in order, before any comparison. *)
Fixpoint decorate (key : A -> result K) (l : list A) : result (list (K * A)) :=
  match l with
  | [] => Ok []
  | x :: l' =>
      k <- key x ;;
      r <- decorate key l' ;;
      Ok ((k, x) :: r)
  end.

(** Stable insertion of [x] in front of the sorted [l]: [x] goes before
    the first item that is not smaller than it. *)
Fixpoint insert (x : K * A) (l : list (K * A)) : result (list (K * A)) :=
  match l with
  | [] => Ok [x]
  | y :: l' =>
      b <- lt (fst y) (fst x) ;;
      if b then r <- insert x l' ;; Ok (y :: r)
      else Ok (x :: y :: l')
  end.

(** [list.sort()] on decorated items: ascending and stable; an
    exception raised by a comparison leaves the sort. *)
Fixpoint list_sort (l : list (K * A)) : result (list (K * A)) :=
  match l with
  | [] => Ok []
  | x :: l' =>
      s <- list_sort l' ;;
      insert x s
  end.

(** [sorted(l, key=key, reverse=reverse)].  With [reverse] the list is
    reversed before and after the ascending sort, which keeps items of
    equal key in their input order. *)
Definition sorted (l : list A) (key : A -> result K) (reverse : bool)
  : result (list A) :=
  d <- decorate key l ;;
  s <- list_sort (if reverse then rev d else d) ;;
  Ok (map snd (if reverse then rev s else s)).

End Sorted.

Arguments decorate {A K} key l.
Arguments insert {A K} lt x l.
Arguments list_sort {A K} lt l.
Arguments sorted {A K} lt l key reverse.

Section Sorter.

Variable date_parser_parse : str -> result datetime.

Definition sort_key (x : article) : result datetime :=
  parse_date date_parser_parse (published x).

Definition sort_articles_by_date (articles : list article) (reverse : bool)
  : result (list article) :=
  sorted datetime_lt articles sort_key reverse.

End Sorter.

(** ** Filter *)

Section Filter.

(** The Unicode database that [str.lower] reads. *)
Variable db : Text.unicode_db.

Definition matches (keyword_lower : str) (a : article) : bool :=
  Text.contains keyword_lower (Text.lower db (title a))
  || Text.contains keyword_lower (Text.lower db (description a)).

Definition filter_articles (articles : list article) (keyword : str)
  : list article :=
  let keyword_lower := Text.lower db keyword in
  filter (matches keyword_lower) articles.

End Filter.

(** ** Presenter *)

(** [l[:stop]] for any integer [stop]: a negative [stop] counts from the
    end of the list. *)
Definition slice_to {A : Type} (l : list A) (stop : Z) : list A :=
  if (stop <? 0)%Z
  then firstn (Z.to_nat (Z.of_nat (List.length l) + stop)) l
  else firstn (Z.to_nat stop) l.

(** [enumerate(l, start)] *)
Fixpoint enumerate {A : Type} (start : nat) (l : list A) : list (nat * A) :=
  match l with
  | [] => []
  | x :: l' => (start, x) :: enumerate (S start) l'
  end.

Definition rule : str := Text.replicate 80 "=".

(** The five [print] calls of the loop body. *)
Definition entry_lines (item : nat * article) : list event :=
  let '(idx, a) := item in
  [ Print (Text.of_nat idx ++ ". [" ++ source a ++ "] " ++ title a);
    Print ("   " ++ link a);
    Print ("   Published: " ++ published a);
    Print ("   " ++ Text.take 150 (description a) ++ "...");
    Print "" ].

Definition display_entry (out : trace) (item : nat * article) : trace :=
  out ++ entry_lines item.

Definition header (articles : list article) (limit : Z) : list event :=
  [ Print (Text.newline ++ rule);
    Print ("Displaying "
           ++ Text.of_Z (Z.min limit (Z.of_nat (List.length articles)))
           ++ " of " ++ Text.of_nat (List.length articles)
           ++ " total articles");
    Print (rule ++ Text.newline) ].

(** [display_articles(articles, limit)], started with the output so
    far: the function returns [None] and extends the output. *)
Definition display_articles (articles : list article) (limit : Z) (out : trace)
  : unit * trace :=
  let out := out ++ header articles limit in
  (tt, fold_left display_entry (enumerate 1 (slice_to articles limit)) out).

(** The default of [limit]. *)
Definition default_limit : Z := 10.

(** ** Vocabulary of the properties *)

(** The position of a date on its own scale: naive and aware dates are
    each ordered by it, and never compared with one another. *)
Definition rank (d : datetime) : Z :=
  match d with
  | Naive us => Z.of_N us
  | Aware utc_us => utc_us
  end.

(** The sort key of an article as a value: [parse_date] never raises. *)
Definition date_of (date_parser_parse : str -> result datetime)
    (a : article) : datetime :=
  match date_parser_parse (published a) with
  | Ok d => d
  | Raise _ => datetime_min
  end.

(** The published text of the article does not parse. *)
Definition unparseable (date_parser_parse : str -> result datetime)
    (a : article) : Prop :=
  exists e, date_parser_parse (published a) = Raise e.

(** All dates are naive, or all are aware. *)
Definition comparable (ds : list datetime) : bool :=
  forallb is_naive ds || forallb (fun d => negb (is_naive d)) ds.


(** Two characters are the same letter when they are equal or one is an
    upper-case ASCII letter and the other its lower-case form. *)
Definition lower_form (u c : char) : Prop :=
  Text.is_upper u = true /\ c = (u + 32)%N.

Definition same_letter (a b : char) : Prop :=
  a = b \/ lower_form a b \/ lower_form b a.

(** Equality of two texts up to the case of their letters. *)
Inductive equal_ignoring_case : str -> str -> Prop :=
| eic_empty : equal_ignoring_case "" ""
| eic_char a b s t :
    same_letter a b -> equal_ignoring_case s t ->
    equal_ignoring_case (String a s) (String b t).

(** [keyword] is a case-insensitive substring of [text]: some stretch of
    [text] equals [keyword] up to case. *)
Definition occurs_ignoring_case (keyword text : str) : Prop :=
  exists before w after,
    text = (before ++ w ++ after)%str /\ equal_ignoring_case w keyword.


(** The event log of one source: the announcement, the outcome, the
    pause. *)
Definition source_log (feedparser_parse : str -> result feed)
    (item : str * str) : list event :=
  [ Print ("Fetching " ++ fst item ++ "...");
    match feedparser_parse (snd item) with
    | Ok f => Print ("  ✓ Found " ++ Text.of_nat (List.length (entries f))
                     ++ " articles")
    | Raise e => Print ("  ✗ Error fetching " ++ fst item ++ ": " ++ exn_str e)
    end;
    Sleep 500 ].

(** ** Sample runs of the libraries

    The values of the two external parsers on the inputs used in the
    examples below. *)

(** [dateutil.parser.parse] on a few texts: dates with a time zone
    parse to aware values, dates without one to naive values with the
    missing time of day set to midnight, and the empty text (or a text
    that is not a date) raises. *)
Definition dateutil_sample (s : str) : result datetime :=
  if s =? "Mon, 01 Jan 2024 00:00:00 GMT" then Ok (Aware 63839664000000000)
  else if s =? "2024-01-01T00:00:00Z" then Ok (Aware 63839664000000000)
  else if s =? "2024-01-01" then Ok (Naive 63839664000000000)
  else if s =? "2023-06-15 12:00:00" then Ok (Naive 63822427200000000)
  else if s =? "0001-01-01" then Ok (Naive 0)
  else if s =? "" then
    Raise (mkExn "ParserError" "String does not contain a date: ")
  else Raise (mkExn "ParserError" ("Unknown string format: " ++ s)).

(** A run of [feedparser.parse] in which source A answers with one
    entry and source B cannot be reached. *)
Definition chip_entry : entry :=
  {| e_title := Some "New Chip Unveiled";
     e_link := None;
     e_summary := None;
     e_description := None;
     e_published := Some "2024-01-01T00:00:00Z";
     e_updated := None |}.

Definition feedparser_sample (url : str) : result feed :=
  if url =? "https://a.example/feed" then Ok {| entries := [chip_entry] |}
  else Raise (mkExn "URLError" "network unreachable").

(** A run of [feedparser.parse] in which source A answers with two
    entries and source B with one. *)
Definition review_entry : entry :=
  {| e_title := Some "Chip review";
     e_link := Some "https://a.example/2";
     e_summary := Some "A closer look";
     e_description := Some "unused";
     e_published := None;
     e_updated := Some "2024-01-02T00:00:00Z" |}.

Definition bare_entry : entry :=
  {| e_title := None;
     e_link := None;
     e_summary := None;
     e_description := Some "Only a description";
     e_published := None;
     e_updated := None |}.

Definition feedparser_pair (url : str) : result feed :=
  if url =? "https://a.example/feed"
  then Ok {| entries := [chip_entry; review_entry] |}
  else Ok {| entries := [bare_entry] |}.

(** The Unicode database on the characters below U+0100 and on the
    Greek letters from U+0391 to U+03C9: the lowercase mapping and the
    properties Cased and Case_Ignorable.  The examples use no other
    character. *)
Definition unicode_sample : Text.unicode_db :=
  {| Text.to_lower_full c :=
       if ((192 <=? c) && (c <=? 214) || (216 <=? c) && (c <=? 222)
           || (913 <=? c) && (c <=? 929) || (932 <=? c) && (c <=? 939))%N
       then String (c + 32)%N ""
       else String c "";
     Text.is_cased c :=
       ((65 <=? c) && (c <=? 90) || (97 <=? c) && (c <=? 122)
        || (c =? 170) || (c =? 181) || (c =? 186)
        || (192 <=? c) && (c <=? 214) || (216 <=? c) && (c <=? 246)
        || (248 <=? c) && (c <=? 255)
        || (913 <=? c) && (c <=? 929) || (931 <=? c) && (c <=? 969))%N;
     Text.is_case_ignorable c :=
       ((c =? 39) || (c =? 46) || (c =? 58) || (c =? 94) || (c =? 96)
        || (c =? 168) || (c =? 173) || (c =? 175) || (c =? 180)
        || (c =? 183) || (c =? 184))%N |}.

Definition two_sources : list (str * str) :=
  [ ("Source A", "https://a.example/feed");
    ("Source B", "https://b.example/feed") ].

Definition dated (text : str) : article :=
  {| title := "T"; link := ""; description := "D";
     published := text; source := "S" |}.

Definition titled (text : str) : article :=
  {| title := text; link := ""; description := "No description";
     published := ""; source := "S" |}.

(** ** The pipeline *)

(** The three [print] calls that open [main]. *)
Definition banner : list event :=
  [ Print "RSS News Aggregator"; Print rule; Print "" ].

(** The three [print] calls that announce a filtered list. *)
Definition filter_report (keyword : str) (found : list article)
  : list event :=
  [ Print (Text.newline ++ rule);
    Print ("Filtered for '" ++ keyword ++ "': "
           ++ Text.of_nat (List.length found) ++ " articles found");
    Print rule ].

Section Pipeline.

Variable db : Text.unicode_db.
Variable feedparser_parse : str -> result feed.
Variable date_parser_parse : str -> result datetime.

(** [main()], started with the output so far: what it printed, and
    whether it returned or left with an exception. *)
Definition main (out : trace) : result unit * trace :=
  let out := out ++ banner in
  let '(articles, out) := fetch_all_feeds feedparser_parse RSS_FEEDS out in
  match sort_articles_by_date date_parser_parse articles true with
  | Raise e => (Raise e, out)
  | Ok sorted_articles =>
      let '(_, out) := display_articles sorted_articles 15 out in
      let tech_news := filter_articles db sorted_articles "technology" in
      let out := out ++ filter_report "technology" tech_news in
      let '(_, out) := display_articles tech_news 10 out in
      let ai_news :=
        filter_articles db sorted_articles "artificial intelligence" in
      let out := out ++ filter_report "artificial intelligence" ai_news in
      let '(_, out) := display_articles ai_news 5 out in
      (Ok tt, out)
  end.

End Pipeline.

(** ** Measures of the output *)

(** The time spent in [time.sleep], in milliseconds. *)
Fixpoint slept (out : trace) : N :=
  match out with
  | [] => 0
  | Sleep ms :: out' => ms + slept out'
  | Print _ :: out' => slept out'
  end.

(** The lines printed, without the pauses. *)
Fixpoint printed (out : trace) : list str :=
  match out with
  | [] => []
  | Print line :: out' => line :: printed out'
  | Sleep _ :: out' => printed out'
  end.

(** The dates of a list of articles are in order: newest first when
    [reverse] is set, oldest first otherwise. *)
Definition in_date_order (date_parser_parse : str -> result datetime)
    (reverse : bool) (l : list article) : Prop :=
  StronglySorted
    (fun x y =>
       if reverse
       then (rank (date_of date_parser_parse y)
             <= rank (date_of date_parser_parse x))%Z
       else (rank (date_of date_parser_parse x)
             <= rank (date_of date_parser_parse y))%Z) l.

(** The articles of [l] whose date is [d], in their order. *)
Definition dated_at (date_parser_parse : str -> result datetime)
    (d : datetime) (l : list article) : list article :=
  filter (fun x => (rank (date_of date_parser_parse x) =? rank d)%Z) l.

(** A run of [feedparser.parse] in which no source can be reached. *)
Definition feedparser_offline (url : str) : result feed :=
  Raise (mkExn "URLError" ("cannot reach " ++ url)).

(** A run of [feedparser.parse] in which every source answers with the
    same two entries, the second one without a date. *)
Definition tech_entry : entry :=
  {| e_title := Some "Technology review";
     e_link := Some "https://example.org/1";
     e_summary := Some "Artificial Intelligence in 2024";
     e_description := Some "unused";
     e_published := Some "Mon, 01 Jan 2024 00:00:00 GMT";
     e_updated := None |}.

Definition undated_entry : entry :=
  {| e_title := Some "Sports";
     e_link := None;
     e_summary := None;
     e_description := None;
     e_published := None;
     e_updated := None |}.

Definition feedparser_undated (url : str) : result feed :=
  Ok {| entries := [tech_entry; undated_entry] |}.

Definition feedparser_dated (url : str) : result feed :=
  Ok {| entries := [tech_entry] |}.

(** * Properties *)

(** ** Fetcher *)

Section FetcherFacts.

Variable feedparser_parse : str -> result feed.


Lemma append_entries source_name es acc :
  fold_left (append_entry source_name) es acc
  = acc ++ map (make_article source_name) es.
Proof.
  revert acc; induction es as [|e es IH]; intros acc; simpl.
  - now rewrite app_nil_r.
  - rewrite IH. unfold append_entry. now rewrite <- app_assoc.
Qed.

Lemma fetch_source_step acc out item :
  fetch_source feedparser_parse (acc, out) item
  = (acc ++ contribution feedparser_parse item, out ++ source_log feedparser_parse item).
Proof.
  destruct item as [source_name feed_url].
  unfold fetch_source, contribution, source_log; simpl.
  destruct (feedparser_parse feed_url) as [f|e].
  - rewrite append_entries, <- !app_assoc. reflexivity.
  - rewrite app_nil_r, <- !app_assoc. reflexivity.
Qed.

Lemma fetch_loop feed_dict acc out :
  fold_left (fetch_source feedparser_parse) feed_dict (acc, out)
  = (acc ++ flat_map (contribution feedparser_parse) feed_dict,
     out ++ flat_map (source_log feedparser_parse) feed_dict).
Proof.
  revert acc out; induction feed_dict as [|item rest IH]; intros acc out.
  - simpl. now rewrite !app_nil_r.
  - cbn [fold_left flat_map]. rewrite fetch_source_step, IH.
    now rewrite <- !app_assoc.
Qed.

Lemma fetch_all_feeds_unfold feed_dict out :
  fetch_all_feeds feedparser_parse feed_dict out
  = (flat_map (contribution feedparser_parse) feed_dict, out ++ flat_map (source_log feedparser_parse) feed_dict).
Proof. unfold fetch_all_feeds. now rewrite fetch_loop. Qed.

Lemma source_log_announces item :
  In (Print ("Fetching " ++ fst item ++ "...")) (source_log feedparser_parse item).
Proof. unfold source_log. now left. Qed.

(** C1: a source whose feed cannot be retrieved or parsed contribution feedparser_parse nothing
    to the result and is reported, with its name and the message of the
    error, in the output; every other source is still announced and
    contribution feedparser_parse all the articles of its parsed entries. *)
Theorem fetch_isolates_failure :
  forall before item after out e,
    feedparser_parse (snd item) = Raise e ->
    let feed_dict := before ++ item :: after in
    let '(articles, log) := fetch_all_feeds feedparser_parse feed_dict out in
    articles = flat_map (contribution feedparser_parse) before ++ flat_map (contribution feedparser_parse) after
    /\ contribution feedparser_parse item = []
    /\ In (Print ("  ✗ Error fetching " ++ fst item ++ ": " ++ exn_str e)) log
    /\ (forall other, In other (before ++ after) ->
          In (Print ("Fetching " ++ fst other ++ "...")) log
          /\ forall f, feedparser_parse (snd other) = Ok f ->
               contribution feedparser_parse other = map (make_article (fst other)) (entries f)).
Proof.
  intros before item after out e Hfail feed_dict.
  unfold feed_dict. rewrite fetch_all_feeds_unfold.
  assert (Hnone : contribution feedparser_parse item = []).
  { unfold contribution. now rewrite Hfail. }
  repeat split.
  - rewrite flat_map_app. cbn [flat_map]. now rewrite Hnone.
  - exact Hnone.
  - apply in_or_app; right. rewrite flat_map_app. apply in_or_app; right.
    cbn [flat_map]. apply in_or_app; left.
    unfold source_log. rewrite Hfail. right; now left.
  - apply in_or_app; right. apply in_flat_map. exists other. split.
    + apply in_app_or in H. apply in_or_app.
      destruct H; [now left | right; now right].
    + apply source_log_announces.
  - intros f Hf. unfold contribution. now rewrite Hf.
Qed.

(** C3: when no source fails, the result is the normalized articles of
    the first source's entries, in order, then those of the second, and
    so on; its length is the sum of the numbers of entries.  The
    normalized article of an entry is written out: each field with its
    fallbacks, and the name of the source. *)
Theorem fetch_concatenates :
  forall feed_dict feeds out,
    Forall2 (fun item f => feedparser_parse (snd item) = Ok f) feed_dict feeds ->
    let normalized source_name e :=
      {| title := match e_title e with Some t => t | None => "No title" end;
         link := match e_link e with Some l => l | None => "" end;
         description := match e_summary e, e_description e with
                        | Some s, _ => s
                        | None, Some d => d
                        | None, None => "No description"
                        end;
         published := match e_published e, e_updated e with
                      | Some p, _ => p
                      | None, Some u => u
                      | None, None => ""
                      end;
         source := source_name |} in
    fst (fetch_all_feeds feedparser_parse feed_dict out)
    = List.concat
        (map (fun p => map (normalized (fst (fst p))) (entries (snd p)))
             (combine feed_dict feeds))
    /\ List.length (fst (fetch_all_feeds feedparser_parse feed_dict out))
       = list_sum (map (fun f => List.length (entries f)) feeds).
Proof.
  intros feed_dict feeds out H normalized.
  assert (Hnorm : forall source_name e,
             make_article source_name e = normalized source_name e).
  { intros source_name [t l s d p u]. unfold make_article, normalized, get.
    cbn. destruct t, l, s, d, p, u; reflexivity. }
  rewrite fetch_all_feeds_unfold. cbn [fst].
  induction H as [|item f rest feeds' Hitem Hrest [IH1 IH2]].
  - split; reflexivity.
  - cbn [flat_map combine map concat list_sum fst snd].
    assert (Hc : contribution feedparser_parse item
                 = map (normalized (fst item)) (entries f)).
    { unfold contribution. rewrite Hitem. apply map_ext. apply Hnorm. }
    rewrite Hc. split.
    + now rewrite IH1.
    + rewrite length_app, length_map, IH2. reflexivity.
Qed.

(** C9: every article of the result was made from an entry of a source
    that parsed; its five fields hold the entry's values or the
    defaults, and its source is the name of that source. *)
Theorem fetched_article_fields :
  forall feed_dict out a,
    In a (fst (fetch_all_feeds feedparser_parse feed_dict out)) ->
    exists source_name feed_url f e,
      In (source_name, feed_url) feed_dict
      /\ feedparser_parse feed_url = Ok f
      /\ In e (entries f)
      /\ title a = match e_title e with Some t => t | None => "No title" end
      /\ link a = match e_link e with Some l => l | None => "" end
      /\ description a = match e_summary e, e_description e with
                         | Some s, _ => s
                         | None, Some d => d
                         | None, None => "No description"
                         end
      /\ published a = match e_published e, e_updated e with
                       | Some p, _ => p
                       | None, Some u => u
                       | None, None => ""
                       end
      /\ source a = source_name.
Proof.
  intros feed_dict out a Ha.
  rewrite fetch_all_feeds_unfold in Ha. cbn [fst] in Ha.
  apply in_flat_map in Ha. destruct Ha as [[source_name feed_url] [Hin Ha]].
  unfold contribution in Ha. cbn [fst snd] in Ha.
  destruct (feedparser_parse feed_url) as [f|err] eqn:Hf; [|contradiction].
  apply in_map_iff in Ha. destruct Ha as [e [<- He]].
  exists source_name, feed_url, f, e.
  repeat split; try assumption; cbn;
    destruct e as [t l s d p u]; cbn;
    try destruct t; try destruct l; try destruct s; try destruct d;
    try destruct p; try destruct u; reflexivity.
Qed.

End FetcherFacts.

(** ** Text lemmas *)

Section TextFacts.

Local Open Scope str_scope.

Lemma append_assoc (s t u : str) : (s ++ t) ++ u = s ++ t ++ u.
Proof. induction s as [|c s IH]; simpl; [reflexivity | now rewrite IH]. Qed.

Lemma append_empty_r (s : str) : s ++ "" = s.
Proof. induction s as [|c s IH]; simpl; [reflexivity | now rewrite IH]. Qed.

Lemma lower_ascii_app s t :
  Text.lower_ascii (s ++ t) = Text.lower_ascii s ++ Text.lower_ascii t.
Proof. induction s as [|c s IH]; simpl; [reflexivity | now rewrite IH]. Qed.

(** A split of the lower-case form of a text comes from a split of the
    text. *)
Lemma lower_ascii_split t : forall x y,
  Text.lower_ascii t = x ++ y ->
  exists a b, t = a ++ b /\ Text.lower_ascii a = x /\ Text.lower_ascii b = y.
Proof.
  induction t as [|c t IH]; intros x y H.
  - destruct x; [|discriminate]. simpl in H. subst y.
    exists "", "". now repeat split.
  - destruct x as [|d x].
    + simpl in H. subst y. exists "", (String c t). now repeat split.
    + simpl in H. injection H as Hc Ht.
      destruct (IH _ _ Ht) as (a & b & -> & Ha & Hb).
      exists (String c a), b. simpl. rewrite Hc, Ha. now repeat split.
Qed.

Lemma starts_with_iff p s :
  Text.starts_with p s = true <-> exists rest, s = p ++ rest.
Proof.
  revert s; induction p as [|a p IH]; intros s; simpl.
  - split; [intros _; now exists s | reflexivity].
  - destruct s as [|b s]; simpl.
    + split; [discriminate | intros [rest H]; discriminate].
    + rewrite andb_true_iff, N.eqb_eq, IH. split.
      * intros [-> [rest ->]]. now exists rest.
      * intros [rest H]. injection H as -> ->. split; [reflexivity|now exists rest].
Qed.

(** [needle in haystack] holds exactly when the needle is a stretch of
    the haystack. *)
Lemma contains_iff needle haystack :
  Text.contains needle haystack = true
  <-> exists before after, haystack = before ++ needle ++ after.
Proof.
  induction haystack as [|c h IH].
  - simpl. rewrite orb_false_r, starts_with_iff. split.
    + intros [rest H]. now exists "", rest.
    + intros [before [after H]]. destruct before; [|discriminate].
      now exists after.
  - cbn [Text.contains]. rewrite orb_true_iff, starts_with_iff, IH. split.
    + intros [[rest H] | [before [after H]]].
      * now exists "", rest.
      * exists (String c before), after. simpl. now rewrite H.
    + intros [before [after H]]. destruct before as [|d before].
      * left. now exists after.
      * right. simpl in H. injection H as _ H. now exists before, after.
Qed.

Lemma upper_bounds c :
  Text.is_upper c = true -> (65 <= c <= 90)%N.
Proof.
  unfold Text.is_upper. rewrite andb_true_iff, !N.leb_le. tauto.
Qed.

Lemma lower_form_not_upper u c : lower_form u c -> Text.is_upper c = false.
Proof.
  intros [Hu ->]. apply upper_bounds in Hu.
  unfold Text.is_upper.
  apply andb_false_iff; right. apply N.leb_gt. lia.
Qed.

Lemma same_letter_iff a b :
  same_letter a b <-> Text.lower_char a = Text.lower_char b.
Proof.
  unfold same_letter, Text.lower_char. split.
  - intros [-> | [H | H]]; [reflexivity | |];
      pose proof (lower_form_not_upper _ _ H) as Hn;
      destruct H as [Hu ->]; rewrite Hu, Hn; reflexivity.
  - destruct (Text.is_upper a) eqn:Ha, (Text.is_upper b) eqn:Hb; intros H.
    + left. lia.
    + right; left. now split.
    + right; right. now split.
    + now left.
Qed.

Lemma equal_ignoring_case_iff s t :
  equal_ignoring_case s t <-> Text.lower_ascii s = Text.lower_ascii t.
Proof.
  split.
  - induction 1 as [|a b s t Hab _ IH]; simpl; [reflexivity|].
    apply same_letter_iff in Hab. now rewrite Hab, IH.
  - revert t; induction s as [|a s IH]; intros [|b t] H; try discriminate.
    + constructor.
    + simpl in H. injection H as Hab Hst. constructor.
      * now apply same_letter_iff.
      * now apply IH.
Qed.

(** On the letter-by-letter lower-case forms, containment is
    case-insensitive occurrence. *)
Lemma contains_lower_ascii_iff keyword text :
  Text.contains (Text.lower_ascii keyword) (Text.lower_ascii text) = true
  <-> occurs_ignoring_case keyword text.
Proof.
  rewrite contains_iff. unfold occurs_ignoring_case. split.
  - intros (x & y & H).
    destruct (lower_ascii_split _ _ _ H) as (before & rest & -> & _ & Hrest).
    destruct (lower_ascii_split _ _ _ Hrest) as (w & after & -> & Hw & _).
    exists before, w, after. split; [reflexivity|].
    now apply equal_ignoring_case_iff.
  - intros (before & w & after & -> & Hw).
    apply equal_ignoring_case_iff in Hw.
    exists (Text.lower_ascii before), (Text.lower_ascii after).
    now rewrite !lower_ascii_app, Hw.
Qed.

Lemma lower_char_ascii c :
  Text.is_ascii_char (Text.lower_char c) = true -> Text.is_ascii_char c = true.
Proof.
  unfold Text.is_ascii_char, Text.lower_char.
  destruct (Text.is_upper c); rewrite !N.ltb_lt; lia.
Qed.

Lemma lower_ascii_isascii s :
  Text.isascii (Text.lower_ascii s) = true -> Text.isascii s = true.
Proof.
  induction s as [|c s IH]; [reflexivity|]. cbn [Text.lower_ascii Text.isascii].
  rewrite !andb_true_iff. intros [Hc Hs].
  split; [now apply lower_char_ascii | now apply IH].
Qed.

Lemma isascii_lower_ascii s :
  Text.isascii s = true -> Text.isascii (Text.lower_ascii s) = true.
Proof.
  induction s as [|c s IH]; [reflexivity|]. cbn [Text.lower_ascii Text.isascii].
  rewrite !andb_true_iff. intros [Hc Hs]. split; [|now apply IH].
  unfold Text.is_ascii_char, Text.lower_char in *.
  destruct (Text.is_upper c) eqn:Hu; [|exact Hc].
  apply upper_bounds in Hu. apply N.ltb_lt. lia.
Qed.

(** A text equal, up to case, to an ASCII text is an ASCII text. *)
Lemma equal_ignoring_case_isascii s t :
  equal_ignoring_case s t -> Text.isascii t = true -> Text.isascii s = true.
Proof.
  intros H Ht. apply equal_ignoring_case_iff in H.
  apply lower_ascii_isascii. rewrite H. now apply isascii_lower_ascii.
Qed.

Lemma isascii_app s t :
  Text.isascii (s ++ t) = Text.isascii s && Text.isascii t.
Proof.
  induction s as [|c s IH]; [reflexivity|]. cbn [Text.append Text.isascii].
  now rewrite IH, andb_assoc.
Qed.

Variable db : Text.unicode_db.

(** An ASCII character is lowered by the fixed rule, whatever is around
    it and whatever the database holds. *)
Lemma lower_ucs4_ascii before c after :
  Text.is_ascii_char c = true ->
  Text.lower_ucs4 db before c after = String (Text.lower_char c) "".
Proof.
  unfold Text.lower_ucs4, Text.is_ascii_char, Text.capital_sigma.
  intros H. rewrite H. apply N.ltb_lt in H.
  destruct (N.eqb_spec c 931); [lia | reflexivity].
Qed.

Lemma do_lower_ascii before s :
  Text.isascii s = true -> Text.do_lower db before s = Text.lower_ascii s.
Proof.
  revert before; induction s as [|c s IH]; intros before; [reflexivity|].
  cbn [Text.isascii Text.do_lower Text.lower_ascii].
  rewrite andb_true_iff. intros [Hc Hs].
  now rewrite lower_ucs4_ascii, IH.
Qed.

(** On ASCII text [str.lower] lowers each letter on its own. *)
Lemma lower_of_ascii s :
  Text.isascii s = true -> Text.lower db s = Text.lower_ascii s.
Proof. apply do_lower_ascii. Qed.




End TextFacts.

(** ** Filter *)





Lemma filter_twice {A : Type} (f : A -> bool) (l : list A) :
  filter f (filter f l) = filter f l.
Proof.
  induction l as [|x l IH]; simpl; [reflexivity|].
  destruct (f x) eqn:Hx; simpl; [rewrite Hx, IH|]; auto.
Qed.



Lemma contains_empty haystack : Text.contains "" haystack = true.
Proof. destruct haystack; reflexivity. Qed.

Lemma matches_empty db a : matches db "" a = true.
Proof. unfold matches. now rewrite contains_empty. Qed.

(** C7: with the empty keyword the filter returns its input. *)
Theorem filter_empty_keyword :
  forall (db : Text.unicode_db) articles,
    filter_articles db articles "" = articles.
Proof.
  intros db articles. unfold filter_articles.
  change (Text.lower db "") with "".
  induction articles as [|a l IH]; [reflexivity|].
  cbn [filter]. rewrite matches_empty, IH. reflexivity.
Qed.

(** C10: filtering twice by the same keyword is filtering once, and
    every article kept matches the keyword. *)
Theorem filter_idempotent :
  forall (db : Text.unicode_db) articles keyword,
    filter_articles db (filter_articles db articles keyword) keyword
    = filter_articles db articles keyword
    /\ Forall (fun a => matches db (Text.lower db keyword) a = true)
              (filter_articles db articles keyword).
Proof.
  intros db articles keyword. unfold filter_articles. split.
  - apply filter_twice.
  - apply Forall_forall. intros a Ha. now apply filter_In in Ha.
Qed.

(** ** Presenter *)

Lemma take_length n s :
  Text.length (Text.take n s) = Nat.min n (Text.length s).
Proof.
  revert s; induction n as [|n IH]; intros [|c s]; simpl; auto.
Qed.

Lemma take_prefix n s : exists rest, s = (Text.take n s ++ rest)%str.
Proof.
  revert s; induction n as [|n IH]; intros s.
  - exists s. now destruct s.
  - destruct s as [|c s]; simpl.
    + now exists "".
    + destruct (IH s) as [rest H]. exists rest. now rewrite <- H.
Qed.

Lemma take_short n s : Text.length s <= n -> Text.take n s = s.
Proof.
  revert s; induction n as [|n IH]; intros [|c s] H; simpl in *;
    try reflexivity; try lia.
  f_equal. apply IH. lia.
Qed.

Lemma display_loop items out :
  fold_left display_entry items out = out ++ flat_map entry_lines items.
Proof.
  revert out; induction items as [|item items IH]; intros out; simpl.
  - now rewrite app_nil_r.
  - rewrite IH. unfold display_entry. now rewrite <- app_assoc.
Qed.

Lemma slice_to_nonneg {A : Type} (l : list A) (stop : Z) :
  (0 <= stop)%Z ->
  slice_to l stop
  = firstn (Z.to_nat (Z.min stop (Z.of_nat (List.length l)))) l.
Proof.
  intros H. unfold slice_to.
  destruct (Z.ltb_spec stop 0) as [Hneg|_]; [lia|].
  destruct (Z.le_ge_cases stop (Z.of_nat (List.length l))) as [Hle|Hge].
  - now rewrite Z.min_l.
  - rewrite Z.min_r, Nat2Z.id by exact Hge.
    rewrite firstn_all. apply firstn_all2. lia.
Qed.

Lemma enumerate_length {A : Type} (l : list A) start :
  List.length (enumerate start l) = List.length l.
Proof.
  revert start; induction l as [|x l IH]; intros start; simpl; auto.
Qed.

(** C8, as the code has it: for a limit that is not negative, the
    presenter prints the header and then the first min(limit, length)
    articles, in order and numbered from 1; the description line of
    each is its first 150 characters (all of it when it is shorter)
    followed by the ellipsis; the function returns nothing. *)
Theorem display_prints_first_articles :
  forall articles limit out,
    (0 <= limit)%Z ->
    let n := Z.to_nat (Z.min limit (Z.of_nat (List.length articles))) in
    let shown := firstn n articles in
    display_articles articles limit out
    = (tt, out ++ header articles limit
               ++ flat_map entry_lines (enumerate 1 shown))
    /\ List.length shown = n
    /\ List.length (enumerate 1 shown) = n
    /\ forall idx a,
         nth_error (entry_lines (idx, a)) 3
         = Some (Print ("   " ++ Text.take 150 (description a) ++ "..."))
         /\ Text.length (Text.take 150 (description a))
            = Nat.min 150 (Text.length (description a))
         /\ (exists rest,
               description a = (Text.take 150 (description a) ++ rest)%str)
         /\ (Text.length (description a) <= 150 ->
             Text.take 150 (description a) = description a).
Proof.
  intros articles limit out Hlimit n shown.
  assert (Hn : List.length shown = n).
  { unfold shown. apply firstn_length_le. unfold n. lia. }
  repeat split.
  - unfold display_articles. rewrite display_loop, slice_to_nonneg by exact Hlimit.
    now rewrite <- app_assoc.
  - exact Hn.
  - now rewrite enumerate_length.
  - apply take_length.
  - apply take_prefix.
  - apply take_short.
Qed.

(** C8 fails for a negative limit: with three articles and limit -1 the
    presenter prints two entries, not min(-1, 3) of them. *)
Lemma display_negative_limit :
  ~ (forall articles limit out,
       snd (display_articles articles limit out)
       = out ++ header articles limit
             ++ flat_map entry_lines
                  (enumerate 1
                     (firstn (Z.to_nat (Z.min limit (Z.of_nat (List.length articles))))
                             articles)))
  /\ slice_to [titled "a"; titled "b"; titled "c"] (-1)
     = [titled "a"; titled "b"].
Proof.
  split; [|reflexivity].
  intros H.
  specialize (H [titled "a"; titled "b"; titled "c"] (-1)%Z []).
  apply (f_equal (@List.length event)) in H.
  vm_compute in H. discriminate H.
Qed.

(** ** Sorting on comparable keys *)

Section SortFacts.

Variables A K : Type.
Variable lt : K -> K -> result bool.

(** The keys of the domain [dom] are ordered by their position. *)
Variable dom : K -> Prop.
Variable pos : K -> Z.
Hypothesis lt_dom :
  forall a b, dom a -> dom b -> lt a b = Ok (pos a <? pos b)%Z.

Local Abbreviation in_dom := (Forall (fun p : K * A => dom (fst p))).
Local Abbreviation ascending :=
  (StronglySorted (fun p q : K * A => (pos (fst p) <= pos (fst q))%Z)).
Local Abbreviation at_pos k := (fun p : K * A => (pos (fst p) =? k)%Z).

Lemma insert_perm (x : K * A) l r :
  insert lt x l = Ok r -> Permutation (x :: l) r.
Proof.
  revert r; induction l as [|y l IH]; intros r; simpl.
  - intros [= <-]. apply Permutation_refl.
  - destruct (lt (fst y) (fst x)) as [[|]|e]; simpl; try discriminate.
    + destruct (insert lt x l) as [r'|e]; simpl; try discriminate.
      intros [= <-]. rewrite perm_swap. apply perm_skip. now apply IH.
    + intros [= <-]. apply Permutation_refl.
Qed.

Lemma list_sort_perm (l s : list (K * A)) :
  list_sort lt l = Ok s -> Permutation l s.
Proof.
  revert s; induction l as [|x l IH]; intros s; simpl.
  - intros [= <-]. constructor.
  - destruct (list_sort lt l) as [s'|e]; simpl; try discriminate.
    intros H. apply insert_perm in H.
    rewrite <- H. apply perm_skip. now apply IH.
Qed.

Lemma insert_ok (x : K * A) l :
  dom (fst x) -> in_dom l -> exists r, insert lt x l = Ok r.
Proof.
  intros Hx Hl; induction Hl as [|y l Hy Hl [r IH]]; simpl.
  - now exists [x].
  - rewrite (lt_dom _ _ Hy Hx); simpl.
    destruct (pos (fst y) <? pos (fst x))%Z.
    + rewrite IH. simpl. now exists (y :: r).
    + now exists (x :: y :: l).
Qed.

Lemma insert_ascending (x : K * A) l r :
  dom (fst x) -> in_dom l -> ascending l ->
  insert lt x l = Ok r -> ascending r.
Proof.
  intros Hx Hl; revert r; induction Hl as [|y l Hy Hl IH]; intros r Hs; simpl.
  - intros [= <-]. repeat constructor.
  - rewrite (lt_dom _ _ Hy Hx); simpl.
    apply StronglySorted_inv in Hs. destruct Hs as [Hs Hall].
    destruct (Z.ltb_spec (pos (fst y)) (pos (fst x))) as [Hlt|Hge].
    + destruct (insert lt x l) as [r'|e] eqn:Hins; simpl; try discriminate.
      intros [= <-]. constructor; [now apply IH|].
      apply (Permutation_Forall (insert_perm _ _ _ Hins)).
      constructor; [lia | exact Hall].
    + intros [= <-]. constructor; [now constructor|].
      constructor; [exact Hge|].
      eapply Forall_impl; [|exact Hall]. cbn. intros; lia.
Qed.

Lemma insert_stable (x : K * A) l r k :
  dom (fst x) -> in_dom l -> insert lt x l = Ok r ->
  filter (at_pos k) r = filter (at_pos k) (x :: l).
Proof.
  intros Hx Hl; revert r; induction Hl as [|y l Hy Hl IH]; intros r; simpl.
  - now intros [= <-].
  - rewrite (lt_dom _ _ Hy Hx); simpl.
    destruct (Z.ltb_spec (pos (fst y)) (pos (fst x))) as [Hlt|Hge].
    + destruct (insert lt x l) as [r'|e]; simpl; try discriminate.
      intros [= <-]. simpl. rewrite (IH r' eq_refl). simpl.
      destruct (Z.eqb_spec (pos (fst x)) k), (Z.eqb_spec (pos (fst y)) k);
        try reflexivity; lia.
    + now intros [= <-].
Qed.

(** On keys of the domain the sort returns: a permutation of its input,
    ascending, with the items of equal position in their input order. *)
Lemma list_sort_spec (l : list (K * A)) :
  in_dom l ->
  exists s, list_sort lt l = Ok s
            /\ Permutation l s
            /\ ascending s
            /\ forall k, filter (at_pos k) s = filter (at_pos k) l.
Proof.
  induction 1 as [|x l Hx Hl (s & Hs & Hperm & Hasc & Hst)]; simpl.
  - exists []. repeat split; constructor.
  - rewrite Hs; simpl.
    assert (Hds : in_dom s) by exact (Permutation_Forall Hperm Hl).
    destruct (insert_ok x s Hx Hds) as [r Hr].
    exists r. repeat split.
    + exact Hr.
    + rewrite <- (insert_perm _ _ _ Hr). now apply perm_skip.
    + exact (insert_ascending _ _ _ Hx Hds Hasc Hr).
    + intros k. rewrite (insert_stable _ _ _ k Hx Hds Hr). simpl.
      now rewrite Hst.
Qed.

Lemma decorate_total (key : A -> result K) (f : A -> K) l :
  (forall x, key x = Ok (f x)) ->
  decorate key l = Ok (map (fun x => (f x, x)) l).
Proof.
  intros Hkey; induction l as [|x l IH]; simpl; [reflexivity|].
  now rewrite Hkey, IH.
Qed.

End SortFacts.

Lemma StronglySorted_app {A : Type} (R : A -> A -> Prop) (l1 l2 : list A) :
  StronglySorted R l1 -> StronglySorted R l2 ->
  (forall x y, In x l1 -> In y l2 -> R x y) ->
  StronglySorted R (l1 ++ l2).
Proof.
  intros H1 H2 H12; induction H1 as [|a l1 H1 IH Ha]; simpl; [exact H2|].
  constructor.
  - apply IH. intros x y Hx Hy. apply H12; [now right | exact Hy].
  - apply Forall_app. split; [exact Ha|].
    apply Forall_forall. intros y Hy. apply H12; [now left | exact Hy].
Qed.

Lemma StronglySorted_rev {A : Type} (R : A -> A -> Prop) (l : list A) :
  StronglySorted R l -> StronglySorted (fun a b => R b a) (rev l).
Proof.
  induction 1 as [|a l Hl IH Ha]; simpl; [constructor|].
  apply StronglySorted_app; [exact IH | repeat constructor |].
  intros x y Hx [<- | []]. apply in_rev in Hx.
  rewrite Forall_forall in Ha. now apply Ha.
Qed.

Section SortedFacts.

Variables A K : Type.
Variable lt : K -> K -> result bool.
Variable dom : K -> Prop.
Variable pos : K -> Z.
Hypothesis lt_dom :
  forall a b, dom a -> dom b -> lt a b = Ok (pos a <? pos b)%Z.

(** A key function that never raises. *)
Variable key : A -> result K.
Variable f : A -> K.
Hypothesis key_total : forall x, key x = Ok (f x).

Local Abbreviation tagged := (Forall (fun p : K * A => fst p = f (snd p))).

Lemma decorated_tagged (l : list A) : tagged (map (fun x => (f x, x)) l).
Proof. induction l; simpl; constructor; auto. Qed.

Lemma decorated_items (l : list A) : map snd (map (fun x => (f x, x)) l) = l.
Proof. rewrite map_map. simpl. apply map_id. Qed.

Lemma tagged_sorted (R : Z -> Z -> Prop) (s : list (K * A)) :
  tagged s ->
  StronglySorted (fun p q => R (pos (fst p)) (pos (fst q))) s ->
  StronglySorted (fun x y => R (pos (f x)) (pos (f y))) (map snd s).
Proof.
  intros Ht Hs; induction Hs as [|p s Hs IH Hp]; simpl; [constructor|].
  apply Forall_cons_iff in Ht. destruct Ht as [Hp' Ht].
  constructor; [now apply IH|].
  apply Forall_map. rewrite Forall_forall in *.
  intros q Hq. rewrite <- Hp', <- (Ht q Hq). now apply Hp.
Qed.

Lemma tagged_filter (k : Z) (s : list (K * A)) :
  tagged s ->
  filter (fun x => (pos (f x) =? k)%Z) (map snd s)
  = map snd (filter (fun p => (pos (fst p) =? k)%Z) s).
Proof.
  induction 1 as [|p s Hp Ht IH]; simpl; [reflexivity|].
  rewrite <- Hp, IH. now destruct (pos (fst p) =? k)%Z.
Qed.

(** [sorted] on keys of the domain: the result is a permutation of the
    input, ordered by position (descending when [reverse] is set), and
    items of equal position keep their input order. *)
Lemma sorted_spec (l : list A) (reverse : bool) :
  Forall (fun x => dom (f x)) l ->
  exists out,
    sorted lt l key reverse = Ok out
    /\ Permutation l out
    /\ StronglySorted
         (fun x y => if reverse then (pos (f y) <= pos (f x))%Z
                     else (pos (f x) <= pos (f y))%Z) out
    /\ forall k, filter (fun x => (pos (f x) =? k)%Z) out
                 = filter (fun x => (pos (f x) =? k)%Z) l.
Proof.
  intros Hl. unfold sorted.
  rewrite (decorate_total _ _ key f l key_total). cbn [bind].
  set (d := map (fun x => (f x, x)) l).
  assert (Hd : Forall (fun p : K * A => dom (fst p)) d).
  { unfold d. apply Forall_map. exact Hl. }
  assert (Hd' : Forall (fun p : K * A => dom (fst p))
                       (if reverse then rev d else d)).
  { destruct reverse; [|exact Hd]. now apply Forall_rev. }
  destruct (list_sort_spec A K lt dom pos lt_dom _ Hd')
    as (s & Hs & Hperm & Hasc & Hst).
  rewrite Hs. cbn [bind]. eexists. split; [reflexivity|].
  assert (Htd : tagged d) by apply decorated_tagged.
  assert (Hts : tagged s).
  { apply (Permutation_Forall Hperm). destruct reverse; [|exact Htd].
    now apply Forall_rev. }
  destruct reverse.
  - repeat split.
    + rewrite <- (decorated_items l). fold d. apply Permutation_map.
      rewrite <- Permutation_rev.
      rewrite (Permutation_rev d). exact Hperm.
    + apply (tagged_sorted (fun a b => (b <= a)%Z)); [now apply Forall_rev|].
      now apply StronglySorted_rev in Hasc.
    + intros k. rewrite tagged_filter by now apply Forall_rev.
      rewrite filter_rev, Hst, filter_rev, rev_involutive.
      rewrite <- tagged_filter by exact Htd. unfold d.
      now rewrite decorated_items.
  - repeat split.
    + rewrite <- (decorated_items l). fold d. now apply Permutation_map.
    + now apply (tagged_sorted Z.le).
    + intros k. rewrite tagged_filter, Hst by exact Hts.
      rewrite <- tagged_filter by exact Htd. unfold d.
      now rewrite decorated_items.
Qed.

End SortedFacts.

(** ** Dates and the sorter *)

Lemma lt_naive a b :
  is_naive a = true -> is_naive b = true ->
  datetime_lt a b = Ok (rank a <? rank b)%Z.
Proof.
  destruct a as [x|x], b as [y|y]; try discriminate; intros _ _; simpl.
  f_equal. destruct (N.ltb_spec x y), (Z.ltb_spec (Z.of_N x) (Z.of_N y));
    try reflexivity; lia.
Qed.

Lemma lt_aware a b :
  is_naive a = false -> is_naive b = false ->
  datetime_lt a b = Ok (rank a <? rank b)%Z.
Proof.
  destruct a as [x|x], b as [y|y]; try discriminate; reflexivity.
Qed.

Lemma lt_naive_aware a b :
  is_naive a <> is_naive b -> datetime_lt a b = Raise naive_aware_error.
Proof.
  destruct a, b; simpl; intros H; try reflexivity; now elim H.
Qed.

Lemma forallb_rev {A : Type} (p : A -> bool) (l : list A) :
  forallb p (rev l) = forallb p l.
Proof.
  induction l as [|x l IH]; simpl; [reflexivity|].
  rewrite forallb_app, IH. simpl. rewrite andb_true_r. apply andb_comm.
Qed.

Lemma comparable_rev ds : comparable (rev ds) = comparable ds.
Proof. unfold comparable. now rewrite !forallb_rev. Qed.

Lemma comparable_cases ds :
  comparable ds = true ->
  Forall (fun d => is_naive d = true) ds
  \/ Forall (fun d => is_naive d = false) ds.
Proof.
  unfold comparable. rewrite orb_true_iff, !forallb_forall, !Forall_forall.
  intros [H | H]; [left | right]; intros d Hd; specialize (H d Hd).
  - exact H.
  - now apply negb_true_iff.
Qed.

Lemma comparable_tail d ds :
  comparable (d :: ds) = true -> comparable ds = true.
Proof.
  unfold comparable; simpl. rewrite !orb_true_iff, !andb_true_iff. tauto.
Qed.

(** A list that cannot be extended by [d] holds a date of the other
    kind only. *)
Lemma incomparable_head d ds :
  comparable (d :: ds) = false -> comparable ds = true ->
  ds <> [] /\ Forall (fun d' => is_naive d' <> is_naive d) ds.
Proof.
  unfold comparable; simpl. intros H Hc.
  apply orb_false_iff in H. destruct H as [H1 H2].
  apply andb_false_iff in H1, H2. apply orb_true_iff in Hc.
  split.
  - intros ->. simpl in *. destruct (is_naive d); intuition discriminate.
  - apply Forall_forall. intros d' Hd'.
    destruct (is_naive d) eqn:Hd; simpl in *.
    + destruct H1 as [H1|H1]; [discriminate|].
      destruct Hc as [Hc|Hc]; [congruence|].
      rewrite forallb_forall in Hc.
      specialize (Hc d' Hd'). apply negb_true_iff in Hc. congruence.
    + destruct H2 as [H2|H2]; [discriminate|].
      destruct Hc as [Hc|Hc]; [|congruence].
      rewrite forallb_forall in Hc.
      specialize (Hc d' Hd'). congruence.
Qed.

Section DecoratedDates.

Variable A : Type.

Lemma list_sort_comparable (l : list (datetime * A)) :
  comparable (map fst l) = true ->
  exists s, list_sort datetime_lt l = Ok s /\ Permutation l s.
Proof.
  intros H. apply comparable_cases in H. rewrite !Forall_map in H.
  destruct H as [H | H].
  - destruct (list_sort_spec A datetime datetime_lt
                (fun d => is_naive d = true) rank lt_naive l H)
      as (s & Hs & Hp & _).
    now exists s.
  - destruct (list_sort_spec A datetime datetime_lt
                (fun d => is_naive d = false) rank lt_aware l H)
      as (s & Hs & Hp & _).
    now exists s.
Qed.

(** A naive and an aware key in one list make the sort raise. *)
Lemma list_sort_incomparable (l : list (datetime * A)) :
  comparable (map fst l) = false ->
  list_sort datetime_lt l = Raise naive_aware_error.
Proof.
  induction l as [|x l IH]; [discriminate|].
  cbn [map list_sort]. intros H.
  destruct (comparable (map fst l)) eqn:Hc.
  - destruct (incomparable_head _ _ H Hc) as [Hne Hkind].
    destruct (list_sort_comparable l Hc) as (s & Hs & Hperm).
    rewrite Hs. cbn [bind].
    destruct s as [|y s].
    + apply Permutation_sym, Permutation_nil in Hperm.
      subst l. now elim Hne.
    + cbn [insert]. rewrite lt_naive_aware; [reflexivity|].
      rewrite Forall_map, Forall_forall in Hkind. apply Hkind.
      apply (Permutation_in _ (Permutation_sym Hperm)). now left.
  - now rewrite IH.
Qed.

End DecoratedDates.

Section SorterFacts.

Variable date_parser_parse : str -> result datetime.

Lemma sort_key_total a :
  sort_key date_parser_parse a = Ok (date_of date_parser_parse a).
Proof.
  unfold sort_key, parse_date, date_of, try_except.
  now destruct (date_parser_parse (published a)).
Qed.

Lemma unparseable_date a :
  unparseable date_parser_parse a ->
  date_of date_parser_parse a = datetime_min.
Proof. intros [e H]. unfold date_of. now rewrite H. Qed.

(** When the dates of the articles can be compared, the sorter returns
    the articles in the order of their dates, descending when [reverse]
    is set, with the articles of equal date in their input order. *)
Lemma sort_comparable_dates articles reverse :
  comparable (map (date_of date_parser_parse) articles) = true ->
  exists out,
    sort_articles_by_date date_parser_parse articles reverse = Ok out
    /\ Permutation articles out
    /\ StronglySorted
         (fun x y =>
            if reverse
            then (rank (date_of date_parser_parse y)
                  <= rank (date_of date_parser_parse x))%Z
            else (rank (date_of date_parser_parse x)
                  <= rank (date_of date_parser_parse y))%Z) out
    /\ forall k,
         filter (fun x => (rank (date_of date_parser_parse x) =? k)%Z) out
         = filter (fun x => (rank (date_of date_parser_parse x) =? k)%Z)
                  articles.
Proof.
  intros H. apply comparable_cases in H. rewrite !Forall_map in H.
  unfold sort_articles_by_date. destruct H as [H | H].
  - exact (sorted_spec article datetime datetime_lt _ rank lt_naive
             _ _ sort_key_total articles reverse H).
  - exact (sorted_spec article datetime datetime_lt _ rank lt_aware
             _ _ sort_key_total articles reverse H).
Qed.

(** When a date without a time zone meets a date with one, the sorter
    raises the error of their comparison. *)
Lemma sort_incomparable_dates articles reverse :
  comparable (map (date_of date_parser_parse) articles) = false ->
  sort_articles_by_date date_parser_parse articles reverse
  = Raise naive_aware_error.
Proof.
  intros H. unfold sort_articles_by_date, sorted.
  rewrite (decorate_total _ _ _ _ articles sort_key_total). cbn [bind].
  rewrite list_sort_incomparable; [reflexivity|].
  destruct reverse.
  - rewrite map_rev, comparable_rev, map_map. exact H.
  - rewrite map_map. exact H.
Qed.

End SorterFacts.

Lemma StronglySorted_middle {A : Type} (R : A -> A -> Prop) xs a ys :
  StronglySorted R (xs ++ a :: ys) ->
  Forall (fun x => R x a) xs /\ Forall (R a) ys.
Proof.
  induction xs as [|x xs IH]; simpl; intros H;
    apply StronglySorted_inv in H; destruct H as [H Hx].
  - split; [constructor | exact Hx].
  - destruct (IH H) as [H1 H2]. split; [|exact H2].
    constructor; [|exact H1].
    rewrite Forall_forall in Hx. apply Hx, in_elt.
Qed.

Lemma minimal_date d :
  is_naive d = true -> (rank d <= 0)%Z -> d = datetime_min.
Proof.
  destruct d as [us|z]; [|discriminate]. simpl. intros _ H.
  unfold datetime_min. f_equal. lia.
Qed.

(** C4: whatever the text, [parse_date] returns: the date that the
    parser found, or the minimum date when the parser raised. *)
Theorem parse_date_never_raises :
  forall (date_parser_parse : str -> result datetime) date_string,
    (exists d, date_parser_parse date_string = Ok d
               /\ parse_date date_parser_parse date_string = Ok d)
    \/ ((exists e, date_parser_parse date_string = Raise e)
        /\ parse_date date_parser_parse date_string = Ok datetime_min).
Proof.
  intros date_parser_parse date_string. unfold parse_date, try_except.
  destruct (date_parser_parse date_string) as [d|e].
  - left. now exists d.
  - right. split; [now exists e | reflexivity].
Qed.

(** C2, as the code has it: for an article whose published text does
    not parse, [parse_date] returns the minimum date; no parsed date
    without a time zone is smaller than it, and each one other than the
    minimum itself is greater; so, when the dates of a list can be
    compared, the sorter returns, and in its result only articles dated
    at the minimum follow such an article in descending order, or
    precede it in ascending order. *)
Theorem unparseable_sorts_as_minimum :
  forall (date_parser_parse : str -> result datetime) articles a,
    unparseable date_parser_parse a ->
    parse_date date_parser_parse (published a) = Ok datetime_min
    /\ (forall s us,
          date_parser_parse s = Ok (Naive us) ->
          datetime_lt (Naive us) datetime_min = Ok false
          /\ (us <> 0%N -> datetime_lt datetime_min (Naive us) = Ok true))
    /\ (comparable (map (date_of date_parser_parse) articles) = true ->
        exists newest_first oldest_first,
          sort_articles_by_date date_parser_parse articles true
          = Ok newest_first
          /\ sort_articles_by_date date_parser_parse articles false
             = Ok oldest_first
          /\ (forall xs ys, newest_first = xs ++ a :: ys ->
                Forall (fun b => date_of date_parser_parse b = datetime_min) ys)
          /\ (forall xs ys, oldest_first = xs ++ a :: ys ->
                Forall (fun b => date_of date_parser_parse b = datetime_min) xs)).
Proof.
  intros parse articles a Ha.
  pose proof (unparseable_date parse a Ha) as Hmin.
  split; [|split].
  - destruct Ha as [e He]. unfold parse_date. now rewrite He.
  - intros s us _. simpl. split.
    + f_equal. apply N.ltb_ge. lia.
    + intros Hus. f_equal. apply N.ltb_lt. lia.
  - intros Hcomp.
    destruct (sort_comparable_dates parse articles true Hcomp)
      as (desc & Hd & Hpd & Hsd & _).
    destruct (sort_comparable_dates parse articles false Hcomp)
      as (asc & Hs & Hps & Hss & _).
    exists desc, asc. split; [exact Hd|]. split; [exact Hs|].
    assert (Hnaive : forall out xs ys,
               Permutation articles out -> out = xs ++ a :: ys ->
               Forall (fun b => is_naive (date_of parse b) = true) out).
    { intros out xs ys Hperm ->.
      apply (Permutation_Forall Hperm).
      apply comparable_cases in Hcomp. rewrite !Forall_map in Hcomp.
      destruct Hcomp as [Hn | Haw]; [exact Hn|].
      assert (Hin : In a articles).
      { apply (Permutation_in _ (Permutation_sym Hperm)), in_elt. }
      rewrite Forall_forall in Haw. specialize (Haw a Hin).
      rewrite Hmin in Haw. discriminate. }
    split; intros xs ys Hout.
    + pose proof (Hnaive _ _ _ Hpd Hout) as Hn. subst desc.
      apply StronglySorted_middle in Hsd. destruct Hsd as [_ Hafter].
      apply Forall_app in Hn. destruct Hn as [_ Hn].
      apply Forall_cons_iff in Hn. destruct Hn as [_ Hn].
      rewrite Forall_forall in *. intros b Hb.
      apply minimal_date; [now apply Hn|].
      specialize (Hafter b Hb). cbn in Hafter. now rewrite Hmin in Hafter.
    + pose proof (Hnaive _ _ _ Hps Hout) as Hn. subst asc.
      apply StronglySorted_middle in Hss. destruct Hss as [Hbefore _].
      apply Forall_app in Hn. destruct Hn as [Hn _].
      rewrite Forall_forall in *. intros b Hb.
      apply minimal_date; [now apply Hn|].
      specialize (Hbefore b Hb). cbn in Hbefore. now rewrite Hmin in Hbefore.
Qed.

(** C2 fails as stated: the text "0001-01-01" parses, to the minimum
    date itself, so the sentinel is not smaller than every parsed date;
    an undated article then stays in front of the article so dated in
    descending order, and behind it in ascending order. *)
Lemma sentinel_equals_a_parsed_date :
  ~ (forall a b d,
       unparseable dateutil_sample a ->
       dateutil_sample (published b) = Ok d ->
       datetime_lt datetime_min d = Ok true)
  /\ unparseable dateutil_sample (dated "")
  /\ dateutil_sample (published (dated "0001-01-01")) = Ok datetime_min
  /\ sort_articles_by_date dateutil_sample
       [dated ""; dated "0001-01-01"] true
     = Ok [dated ""; dated "0001-01-01"]
  /\ sort_articles_by_date dateutil_sample
       [dated "0001-01-01"; dated ""] false
     = Ok [dated "0001-01-01"; dated ""].
Proof.
  assert (Hu : unparseable dateutil_sample (dated "")).
  { eexists; reflexivity. }
  split; [|split; [exact Hu | repeat split]].
  intros H.
  specialize (H (dated "") (dated "0001-01-01") datetime_min Hu eq_refl).
  discriminate H.
Qed.

(** C5 fails on a list that mixes an undated article with an article
    dated with a time zone: the sentinel has no time zone, the
    comparison of the two keys raises, and the sorter returns no
    sequence, in either direction. *)
Theorem sort_raises_on_mixed_dates :
  sort_articles_by_date dateutil_sample
    [dated ""; dated "Mon, 01 Jan 2024 00:00:00 GMT"] true
  = Raise naive_aware_error
  /\ sort_articles_by_date dateutil_sample
       [dated ""; dated "Mon, 01 Jan 2024 00:00:00 GMT"] false
     = Raise naive_aware_error.
Proof. split; reflexivity. Qed.

(** ** Descending against reversed ascending *)

Lemma StronglySorted_map {A B : Type} (g : A -> B) (R : B -> B -> Prop) l :
  StronglySorted (fun x y => R (g x) (g y)) l -> StronglySorted R (map g l).
Proof.
  induction 1 as [|a l Hl IH Ha]; simpl; constructor; [exact IH|].
  now apply Forall_map.
Qed.

(** Two descending lists with the same elements are equal. *)
Lemma descending_unique (l1 l2 : list Z) :
  StronglySorted (fun a b => (b <= a)%Z) l1 ->
  StronglySorted (fun a b => (b <= a)%Z) l2 ->
  Permutation l1 l2 -> l1 = l2.
Proof.
  intros H1; revert l2; induction H1 as [|a l1 H1 IH Ha]; intros l2 H2 Hp.
  - apply Permutation_nil in Hp. now subst.
  - destruct H2 as [|b l2 H2 Hb].
    + apply Permutation_sym, Permutation_nil in Hp. discriminate.
    + assert (Hab : a = b).
      { rewrite Forall_forall in Ha, Hb.
        assert (Hin_a : In a (b :: l2)).
        { apply (Permutation_in _ Hp). now left. }
        assert (Hin_b : In b (a :: l1)).
        { apply (Permutation_in _ (Permutation_sym Hp)). now left. }
        destruct Hin_a as [-> | Hin_a]; [reflexivity|].
        destruct Hin_b as [-> | Hin_b]; [reflexivity|].
        specialize (Ha b Hin_b). specialize (Hb a Hin_a). lia. }
      subst b. f_equal. apply IH; [exact H2|].
      now apply Permutation_cons_inv in Hp.
Qed.

Lemma same_kind_same_rank d1 d2 :
  is_naive d1 = is_naive d2 -> rank d1 = rank d2 -> d1 = d2.
Proof.
  destruct d1, d2; simpl; try discriminate; intros _ H; f_equal; lia.
Qed.

Lemma dates_of_ranks {A : Type} (date : A -> datetime) kind (l1 l2 : list A) :
  Forall (fun x => is_naive (date x) = kind) l1 ->
  Forall (fun x => is_naive (date x) = kind) l2 ->
  map (fun x => rank (date x)) l1 = map (fun x => rank (date x)) l2 ->
  map date l1 = map date l2.
Proof.
  intros H1; revert l2; induction H1 as [|x l1 Hx H1 IH];
    intros [|y l2] H2; simpl; try discriminate; [reflexivity|].
  apply Forall_cons_iff in H2. destruct H2 as [Hy H2].
  intros [= Hxy Hl]. f_equal.
  - apply same_kind_same_rank; congruence.
  - now apply IH.
Qed.

(** When the dates can be compared, the descending result and the
    reversed ascending result carry the same dates at the same places:
    they differ at most by the order of articles of equal date. *)
Lemma descending_and_reversed_ascending
    (date_parser_parse : str -> result datetime) articles :
  comparable (map (date_of date_parser_parse) articles) = true ->
  exists newest_first oldest_first,
    sort_articles_by_date date_parser_parse articles true = Ok newest_first
    /\ sort_articles_by_date date_parser_parse articles false
       = Ok oldest_first
    /\ Permutation newest_first (rev oldest_first)
    /\ map (date_of date_parser_parse) newest_first
       = map (date_of date_parser_parse) (rev oldest_first).
Proof.
  intros Hcomp.
  destruct (sort_comparable_dates date_parser_parse articles true Hcomp)
    as (desc & Hd & Hpd & Hsd & _).
  destruct (sort_comparable_dates date_parser_parse articles false Hcomp)
    as (asc & Hs & Hps & Hss & _).
  exists desc, asc. split; [exact Hd|]. split; [exact Hs|].
  assert (Hperm : Permutation desc (rev asc)).
  { rewrite <- Hpd, <- Permutation_rev. exact Hps. }
  split; [exact Hperm|].
  set (g := fun x => rank (date_of date_parser_parse x)).
  assert (Hranks : map g desc = map g (rev asc)).
  { apply descending_unique.
    - apply StronglySorted_map. exact Hsd.
    - apply StronglySorted_map. apply StronglySorted_rev in Hss. exact Hss.
    - now apply Permutation_map. }
  apply comparable_cases in Hcomp. rewrite !Forall_map in Hcomp.
  destruct Hcomp as [Hk | Hk].
  - apply (dates_of_ranks _ true); [| | exact Hranks].
    + exact (Permutation_Forall Hpd Hk).
    + apply (Permutation_Forall (Permutation_trans Hpd Hperm) Hk).
  - apply (dates_of_ranks _ false); [| | exact Hranks].
    + exact (Permutation_Forall Hpd Hk).
    + apply (Permutation_Forall (Permutation_trans Hpd Hperm) Hk).
Qed.

(** ** The properties on sample runs *)

(** Source A answers with one entry and source B fails: the result is
    the article of source A, and the failure of source B is logged. *)
Lemma fetch_isolates_failure_sample :
  feedparser_sample (snd ("Source B", "https://b.example/feed"))
  = Raise (mkExn "URLError" "network unreachable")
  /\ fst (fetch_all_feeds feedparser_sample two_sources [])
     = [make_article "Source A" chip_entry]
  /\ In (Print "  ✗ Error fetching Source B: network unreachable")
        (snd (fetch_all_feeds feedparser_sample two_sources [])).
Proof.
  pose proof (fetch_isolates_failure feedparser_sample
                [("Source A", "https://a.example/feed")]
                ("Source B", "https://b.example/feed") [] []
                (mkExn "URLError" "network unreachable") eq_refl) as H.
  split; [reflexivity|].
  change ([("Source A", "https://a.example/feed")]
          ++ [("Source B", "https://b.example/feed")]) with two_sources in H.
  cbv zeta in H.
  destruct (fetch_all_feeds feedparser_sample two_sources []) as [articles log].
  destruct H as (Harticles & _ & Hlog & _).
  split; [exact Harticles | exact Hlog].
Defined.

(** Two sources, the first with two entries and the second with one:
    three articles, in the order of the sources and of their entries. *)
Lemma fetch_concatenates_sample :
  fst (fetch_all_feeds feedparser_pair two_sources [])
  = [ {| title := "New Chip Unveiled"; link := "";
         description := "No description";
         published := "2024-01-01T00:00:00Z"; source := "Source A" |};
      {| title := "Chip review"; link := "https://a.example/2";
         description := "A closer look";
         published := "2024-01-02T00:00:00Z"; source := "Source A" |};
      {| title := "No title"; link := "";
         description := "Only a description";
         published := ""; source := "Source B" |} ]
  /\ List.length (fst (fetch_all_feeds feedparser_pair two_sources []))
     = 2 + 1.
Proof.
  apply (fetch_concatenates feedparser_pair two_sources
           [ {| entries := [chip_entry; review_entry] |};
             {| entries := [bare_entry] |} ] []).
  constructor; [reflexivity|]. constructor; [reflexivity | constructor].
Defined.

Lemma fetched_article_fields_sample :
  exists source_name feed_url f e,
    In (source_name, feed_url) two_sources
    /\ feedparser_sample feed_url = Ok f
    /\ In e (entries f)
    /\ "New Chip Unveiled"
       = match e_title e with Some t => t | None => "No title" end
    /\ ""
       = match e_link e with Some l => l | None => "" end
    /\ "No description"
       = match e_summary e, e_description e with
         | Some s, _ => s
         | None, Some d => d
         | None, None => "No description"
         end
    /\ "2024-01-01T00:00:00Z"
       = match e_published e, e_updated e with
         | Some p, _ => p
         | None, Some u => u
         | None, None => ""
         end
    /\ "Source A" = source_name.
Proof.
  apply (fetched_article_fields feedparser_sample two_sources []
           (make_article "Source A" chip_entry)).
  left. reflexivity.
Defined.


(** Three articles under the default limit of ten: three entries. *)
Lemma display_prints_first_articles_sample :
  (0 <= default_limit)%Z
  /\ display_articles [titled "a"; titled "b"; titled "c"] default_limit []
     = (tt, header [titled "a"; titled "b"; titled "c"] default_limit
            ++ flat_map entry_lines
                 (enumerate 1 [titled "a"; titled "b"; titled "c"]))
  /\ nth_error (entry_lines (1, titled "a")) 3
     = Some (Print "   No description...").
Proof.
  assert (Hlimit : (0 <= default_limit)%Z) by (unfold default_limit; lia).
  split; [exact Hlimit|].
  destruct (display_prints_first_articles
              [titled "a"; titled "b"; titled "c"] default_limit [] Hlimit)
    as (Hout & _ & _ & Hline).
  split; [exact Hout|].
  exact (proj1 (Hline 1 (titled "a"))).
Defined.

(** An undated article among articles dated without a time zone. *)
Lemma unparseable_sorts_as_minimum_sample :
  unparseable dateutil_sample (dated "")
  /\ sort_articles_by_date dateutil_sample
       [dated "2023-06-15 12:00:00"; dated ""; dated "2024-01-01"] true
     = Ok [dated "2024-01-01"; dated "2023-06-15 12:00:00"; dated ""]
  /\ forall xs ys,
       [dated "2024-01-01"; dated "2023-06-15 12:00:00"; dated ""]
       = xs ++ dated "" :: ys ->
       Forall (fun b => date_of dateutil_sample b = datetime_min) ys.
Proof.
  assert (Hu : unparseable dateutil_sample (dated "")).
  { exists (mkExn "ParserError" "String does not contain a date: ").
    reflexivity. }
  split; [exact Hu|].
  destruct (unparseable_sorts_as_minimum dateutil_sample
              [dated "2023-06-15 12:00:00"; dated ""; dated "2024-01-01"]
              (dated "") Hu)
    as (_ & _ & Hsort).
  destruct (Hsort eq_refl) as (desc & asc & Hd & _ & Hlast & _).
  assert (Hdesc : desc
                  = [dated "2024-01-01"; dated "2023-06-15 12:00:00"; dated ""]).
  { assert (Hrun : sort_articles_by_date dateutil_sample
                     [dated "2023-06-15 12:00:00"; dated ""; dated "2024-01-01"]
                     true
                   = Ok [dated "2024-01-01"; dated "2023-06-15 12:00:00";
                         dated ""]) by reflexivity.
    rewrite Hrun in Hd. now injection Hd. }
  subst desc. split; [exact Hd | exact Hlast].
Defined.

(** * Further properties *)

(** ** Fetcher: output, counts and composition *)

Lemma slept_app out1 out2 : slept (out1 ++ out2) = (slept out1 + slept out2)%N.
Proof.
  induction out1 as [|[line|ms] out1 IH]; simpl; [reflexivity | exact IH |].
  rewrite IH. lia.
Qed.

Lemma source_logs_length fp feed_dict :
  List.length (flat_map (source_log fp) feed_dict) = 3 * List.length feed_dict.
Proof.
  induction feed_dict as [|item rest IH]; simpl; [reflexivity|].
  rewrite IH. lia.
Qed.

Lemma source_logs_slept fp feed_dict :
  slept (flat_map (source_log fp) feed_dict)
  = (500 * N.of_nat (List.length feed_dict))%N.
Proof.
  induction feed_dict as [|item rest IH]; [reflexivity|].
  cbn [flat_map]. rewrite slept_app, IH.
  unfold source_log. cbn [slept List.length].
  destruct (fp (snd item)); cbn [slept]; lia.
Qed.

(** X1: the fetcher only adds to the output: for each source, in the
    order of the mapping, the announcement, one line with the outcome
    and a pause of half a second, whether the source failed or not. *)
Theorem fetch_log_per_source :
  forall (feedparser_parse : str -> result feed) feed_dict out,
    let log := snd (fetch_all_feeds feedparser_parse feed_dict out) in
    log = out ++ flat_map (source_log feedparser_parse) feed_dict
    /\ List.length log = List.length out + 3 * List.length feed_dict
    /\ slept log = (slept out + 500 * N.of_nat (List.length feed_dict))%N.
Proof.
  intros fp feed_dict out log. unfold log.
  rewrite fetch_all_feeds_unfold. cbn [snd]. split; [reflexivity|].
  split.
  - now rewrite length_app, source_logs_length.
  - now rewrite slept_app, source_logs_slept.
Qed.

(** X2: fetching a mapping made of two parts is fetching the first part
    and then the second: the articles are those of the first part
    followed by those of the second, and the output of the second part
    continues the output of the first. *)
Theorem fetch_in_two_parts :
  forall (feedparser_parse : str -> result feed) part1 part2 out,
    fetch_all_feeds feedparser_parse (part1 ++ part2) out
    = (fst (fetch_all_feeds feedparser_parse part1 out)
       ++ fst (fetch_all_feeds feedparser_parse part2 []),
       snd (fetch_all_feeds feedparser_parse part2
              (snd (fetch_all_feeds feedparser_parse part1 out)))).
Proof.
  intros fp part1 part2 out. rewrite !fetch_all_feeds_unfold. cbn [fst snd].
  now rewrite !flat_map_app, app_assoc.
Qed.

(** X3: the number of articles returned is the sum, over all sources,
    of the number of entries of the sources that parsed (a failed source
    counts for none), and the count printed for a source that parsed is
    the number of articles it added. *)
Theorem fetch_counts :
  forall (feedparser_parse : str -> result feed) feed_dict out,
    List.length (fst (fetch_all_feeds feedparser_parse feed_dict out))
    = list_sum (map (parsed_entries feedparser_parse) feed_dict)
    /\ forall item,
         In item feed_dict ->
         (exists f, feedparser_parse (snd item) = Ok f) ->
         In (Print ("  ✓ Found "
                    ++ Text.of_nat
                         (List.length (contribution feedparser_parse item))
                    ++ " articles"))
            (snd (fetch_all_feeds feedparser_parse feed_dict out)).
Proof.
  intros fp feed_dict out. rewrite fetch_all_feeds_unfold. cbn [fst snd].
  split.
  - induction feed_dict as [|item rest IH]; [reflexivity|].
    assert (Hitem : List.length (contribution fp item)
                    = parsed_entries fp item).
    { unfold contribution, parsed_entries.
      destruct (fp (snd item)); [apply length_map | reflexivity]. }
    cbn [flat_map map]. rewrite length_app, IH, Hitem. reflexivity.
  - intros item Hin [f Hf]. apply in_or_app; right.
    apply in_flat_map. exists item. split; [exact Hin|].
    unfold source_log, contribution. rewrite Hf, length_map.
    right; now left.
Qed.

(** X4: when no source can be fetched the fetcher still returns: the
    result is empty and the output names every source with its error. *)
Theorem fetch_all_sources_fail :
  forall (feedparser_parse : str -> result feed) feed_dict out,
    (forall item, In item feed_dict -> fails feedparser_parse item) ->
    fst (fetch_all_feeds feedparser_parse feed_dict out) = []
    /\ forall item e,
         In item feed_dict -> feedparser_parse (snd item) = Raise e ->
         In (Print ("  ✗ Error fetching " ++ fst item ++ ": " ++ exn_str e))
            (snd (fetch_all_feeds feedparser_parse feed_dict out)).
Proof.
  intros fp feed_dict out Hfail. rewrite fetch_all_feeds_unfold. cbn [fst snd].
  split.
  - induction feed_dict as [|item rest IH]; [reflexivity|].
    cbn [flat_map]. rewrite IH by (intros i Hi; apply Hfail; now right).
    destruct (Hfail item (or_introl eq_refl)) as [e He].
    unfold contribution. now rewrite He.
  - intros item e Hin He. apply in_or_app; right.
    apply in_flat_map. exists item. split; [exact Hin|].
    unfold source_log. rewrite He. right; now left.
Qed.

Lemma fetch_all_sources_fail_offline :
  (forall item, In item RSS_FEEDS -> fails feedparser_offline item)
  /\ fst (fetch_all_feeds feedparser_offline RSS_FEEDS []) = [].
Proof.
  assert (H : forall item, In item RSS_FEEDS -> fails feedparser_offline item).
  { intros item _. eexists. reflexivity. }
  split; [exact H|].
  exact (proj1 (fetch_all_sources_fail feedparser_offline RSS_FEEDS [] H)).
Defined.

(** X5: the sources of the articles returned are the names of the
    mapping, in its order, each as many times as its feed has entries. *)
Theorem fetch_sources_in_order :
  forall (feedparser_parse : str -> result feed) feed_dict out,
    map source (fst (fetch_all_feeds feedparser_parse feed_dict out))
    = flat_map
        (fun item => repeat (fst item) (parsed_entries feedparser_parse item))
        feed_dict.
Proof.
  intros fp feed_dict out. rewrite fetch_all_feeds_unfold. cbn [fst].
  induction feed_dict as [|item rest IH]; [reflexivity|].
  cbn [flat_map]. rewrite map_app, IH. f_equal.
  unfold contribution, parsed_entries.
  destruct (fp (snd item)) as [f|e]; [|reflexivity].
  induction (entries f) as [|e es IHe]; [reflexivity|].
  simpl. now rewrite IHe.
Qed.

(** ** Sorter: when it returns and what it returns *)

(** X6: the sorter returns exactly when the dates of the articles can
    be compared with one another; on any list that holds both a date
    without a time zone (which an unparseable text gives) and a date
    with one, it raises the TypeError of their comparison, in either
    direction. *)
Theorem sort_returns_iff_comparable :
  forall (date_parser_parse : str -> result datetime) articles reverse,
    ((exists out,
        sort_articles_by_date date_parser_parse articles reverse = Ok out)
     <-> comparable (map (date_of date_parser_parse) articles) = true)
    /\ ((exists e,
           sort_articles_by_date date_parser_parse articles reverse = Raise e)
        <-> sort_articles_by_date date_parser_parse articles reverse
            = Raise naive_aware_error).
Proof.
  intros parse articles reverse.
  destruct (comparable (map (date_of parse) articles)) eqn:Hc.
  - destruct (sort_comparable_dates parse articles reverse Hc) as (out & H & _).
    rewrite H. split; split; try discriminate.
    + reflexivity.
    + intros _. now exists out.
    + intros [e He]. discriminate He.
  - rewrite (sort_incomparable_dates parse articles reverse Hc).
    split; split; try reflexivity.
    + intros [out H]. discriminate H.
    + discriminate.
    + intros _. now exists naive_aware_error.
Qed.

(** X7: when the dates can be compared, the sorter returns the same
    articles, none lost and none added, so as many as it was given. *)
Theorem sort_keeps_the_articles :
  forall (date_parser_parse : str -> result datetime) articles reverse,
    comparable (map (date_of date_parser_parse) articles) = true ->
    exists out,
      sort_articles_by_date date_parser_parse articles reverse = Ok out
      /\ Permutation articles out
      /\ List.length out = List.length articles
      /\ forall a, In a out <-> In a articles.
Proof.
  intros parse articles reverse Hc.
  destruct (sort_comparable_dates parse articles reverse Hc)
    as (out & H & Hperm & _).
  exists out. repeat split; try assumption.
  - symmetry. now apply Permutation_length.
  - apply Permutation_in. now apply Permutation_sym.
  - now apply Permutation_in.
Qed.

Lemma sort_keeps_the_articles_sample :
  comparable (map (date_of dateutil_sample)
                [dated "2023-06-15 12:00:00"; dated ""; dated "2024-01-01"])
  = true
  /\ exists out,
       sort_articles_by_date dateutil_sample
         [dated "2023-06-15 12:00:00"; dated ""; dated "2024-01-01"] true
       = Ok out
       /\ Permutation
            [dated "2023-06-15 12:00:00"; dated ""; dated "2024-01-01"] out
       /\ List.length out = 3
       /\ forall a,
            In a out
            <-> In a [dated "2023-06-15 12:00:00"; dated ""; dated "2024-01-01"].
Proof.
  split; [reflexivity|].
  exact (sort_keeps_the_articles dateutil_sample
           [dated "2023-06-15 12:00:00"; dated ""; dated "2024-01-01"] true
           eq_refl).
Defined.

(** X8: when the dates can be compared, the result is in the order of
    the dates: every article is at least as recent as all those after
    it when [reverse] is set (the default), and at most as recent
    otherwise. *)
Theorem sort_orders_by_date :
  forall (date_parser_parse : str -> result datetime) articles reverse,
    comparable (map (date_of date_parser_parse) articles) = true ->
    exists out,
      sort_articles_by_date date_parser_parse articles reverse = Ok out
      /\ in_date_order date_parser_parse reverse out.
Proof.
  intros parse articles reverse Hc.
  destruct (sort_comparable_dates parse articles reverse Hc)
    as (out & H & _ & Hsorted & _).
  exists out. split; [exact H | exact Hsorted].
Qed.

Lemma sort_orders_by_date_sample :
  comparable (map (date_of dateutil_sample)
                [dated "2023-06-15 12:00:00"; dated ""; dated "2024-01-01"])
  = true
  /\ exists out,
       sort_articles_by_date dateutil_sample
         [dated "2023-06-15 12:00:00"; dated ""; dated "2024-01-01"] false
       = Ok out
       /\ in_date_order dateutil_sample false out.
Proof.
  split; [reflexivity|].
  exact (sort_orders_by_date dateutil_sample
           [dated "2023-06-15 12:00:00"; dated ""; dated "2024-01-01"] false
           eq_refl).
Defined.

(** X9: the sort is stable in both directions: the articles of any one
    date are in the result in the order they had in the input. *)
Theorem sort_is_stable :
  forall (date_parser_parse : str -> result datetime) articles reverse,
    comparable (map (date_of date_parser_parse) articles) = true ->
    exists out,
      sort_articles_by_date date_parser_parse articles reverse = Ok out
      /\ forall d,
           dated_at date_parser_parse d out
           = dated_at date_parser_parse d articles.
Proof.
  intros parse articles reverse Hc.
  destruct (sort_comparable_dates parse articles reverse Hc)
    as (out & H & _ & _ & Hstable).
  exists out. split; [exact H|]. intros d. apply Hstable.
Qed.

Lemma sort_is_stable_sample :
  comparable (map (date_of dateutil_sample)
                [titled "first"; dated "2024-01-01"; titled "second"])
  = true
  /\ exists out,
       sort_articles_by_date dateutil_sample
         [titled "first"; dated "2024-01-01"; titled "second"] true
       = Ok out
       /\ forall d,
            dated_at dateutil_sample d out
            = dated_at dateutil_sample d
                [titled "first"; dated "2024-01-01"; titled "second"].
Proof.
  split; [reflexivity|].
  exact (sort_is_stable dateutil_sample
           [titled "first"; dated "2024-01-01"; titled "second"] true eq_refl).
Defined.

(** X10: when the dates can be compared, the dates of the descending
    result are those of the ascending result read backwards. *)
Theorem sort_descending_mirrors_ascending :
  forall (date_parser_parse : str -> result datetime) articles,
    comparable (map (date_of date_parser_parse) articles) = true ->
    exists newest_first oldest_first,
      sort_articles_by_date date_parser_parse articles true = Ok newest_first
      /\ sort_articles_by_date date_parser_parse articles false
         = Ok oldest_first
      /\ map (date_of date_parser_parse) newest_first
         = rev (map (date_of date_parser_parse) oldest_first).
Proof.
  intros parse articles Hc.
  destruct (descending_and_reversed_ascending parse articles Hc)
    as (desc & asc & Hd & Ha & _ & Hdates).
  exists desc, asc. split; [exact Hd|]. split; [exact Ha|].
  now rewrite <- map_rev.
Qed.

Lemma sort_descending_mirrors_ascending_sample :
  comparable (map (date_of dateutil_sample)
                [dated "2023-06-15 12:00:00"; dated ""; dated "2024-01-01"])
  = true
  /\ exists newest_first oldest_first,
       sort_articles_by_date dateutil_sample
         [dated "2023-06-15 12:00:00"; dated ""; dated "2024-01-01"] true
       = Ok newest_first
       /\ sort_articles_by_date dateutil_sample
            [dated "2023-06-15 12:00:00"; dated ""; dated "2024-01-01"] false
          = Ok oldest_first
       /\ map (date_of dateutil_sample) newest_first
          = rev (map (date_of dateutil_sample) oldest_first).
Proof.
  split; [reflexivity|].
  exact (sort_descending_mirrors_ascending dateutil_sample
           [dated "2023-06-15 12:00:00"; dated ""; dated "2024-01-01"]
           eq_refl).
Defined.

(** X11: a list of fewer than two articles is returned as it is,
    whatever its date text: nothing is compared. *)
Theorem sort_short_list :
  forall (date_parser_parse : str -> result datetime) articles reverse,
    List.length articles < 2 ->
    sort_articles_by_date date_parser_parse articles reverse = Ok articles.
Proof.
  intros parse [|a [|b l]] reverse H; simpl in H; try lia.
  - now destruct reverse.
  - unfold sort_articles_by_date, sorted. cbn [decorate].
    rewrite sort_key_total. now destruct reverse.
Qed.

Lemma sort_short_list_sample :
  List.length [dated "Mon, 01 Jan 2024 00:00:00 GMT"] < 2
  /\ sort_articles_by_date dateutil_sample
       [dated "Mon, 01 Jan 2024 00:00:00 GMT"] true
     = Ok [dated "Mon, 01 Jan 2024 00:00:00 GMT"].
Proof.
  assert (H : List.length [dated "Mon, 01 Jan 2024 00:00:00 GMT"] < 2)
    by (simpl; lia).
  split; [exact H|].
  exact (sort_short_list dateutil_sample
           [dated "Mon, 01 Jan 2024 00:00:00 GMT"] true H).
Defined.

(** ** Sorting again, and sorting a part *)

Section SortAgain.

Variables A K : Type.
Variable lt : K -> K -> result bool.
Variable dom : K -> Prop.
Variable pos : K -> Z.
Hypothesis lt_dom :
  forall a b, dom a -> dom b -> lt a b = Ok (pos a <? pos b)%Z.

Local Abbreviation in_dom := (Forall (fun p : K * A => dom (fst p))).
Local Abbreviation ascending :=
  (StronglySorted (fun p q : K * A => (pos (fst p) <= pos (fst q))%Z)).

(** An item that is not greater than any item of the list goes in
    front. *)
Lemma insert_front (x : K * A) l :
  dom (fst x) -> in_dom l ->
  Forall (fun y => (pos (fst x) <= pos (fst y))%Z) l ->
  insert lt x l = Ok (x :: l).
Proof.
  intros Hx Hl Hle. destruct l as [|y l]; [reflexivity|].
  apply Forall_cons_iff in Hl, Hle. destruct Hl as [Hy _], Hle as [Hxy _].
  cbn [insert]. rewrite (lt_dom _ _ Hy Hx). cbn [bind].
  destruct (Z.ltb_spec (pos (fst y)) (pos (fst x))); [lia | reflexivity].
Qed.

Lemma list_sort_ascending (l : list (K * A)) :
  in_dom l -> ascending l -> list_sort lt l = Ok l.
Proof.
  intros Hd Hs; induction Hs as [|x l Hs IH Hx]; [reflexivity|].
  apply Forall_cons_iff in Hd. destruct Hd as [Hdx Hd].
  cbn [list_sort]. rewrite (IH Hd). cbn [bind].
  now apply insert_front.
Qed.

(** Inserting into the kept part of an ascending list gives the kept
    part of the insertion. *)
Lemma insert_filter (q : K * A -> bool) (x : K * A) l r :
  dom (fst x) -> in_dom l -> ascending l ->
  insert lt x l = Ok r ->
  if q x then insert lt x (filter q l) = Ok (filter q r)
  else filter q r = filter q l.
Proof.
  intros Hx Hl; revert r; induction Hl as [|y l Hy Hl IH]; intros r Hs.
  - cbn [insert filter]. intros [= <-]. cbn [filter].
    now destruct (q x).
  - apply StronglySorted_inv in Hs. destruct Hs as [Hs Hall].
    cbn [insert]. rewrite (lt_dom _ _ Hy Hx). cbn [bind].
    destruct (Z.ltb_spec (pos (fst y)) (pos (fst x))) as [Hlt|Hge].
    + destruct (insert lt x l) as [r'|e] eqn:Hins; cbn [bind];
        [|discriminate].
      intros [= <-]. specialize (IH r' Hs eq_refl).
      cbn [filter]. destruct (q x), (q y).
      * cbn [insert]. rewrite (lt_dom _ _ Hy Hx). cbn [bind].
        destruct (Z.ltb_spec (pos (fst y)) (pos (fst x))); [|lia].
        now rewrite IH.
      * exact IH.
      * now rewrite IH.
      * exact IH.
    + intros [= <-]. cbn [filter]. destruct (q x); [|reflexivity].
      apply insert_front.
      * exact Hx.
      * change (in_dom (filter q (y :: l))).
        apply Forall_forall. intros z Hz. apply filter_In in Hz.
        destruct Hz as [Hz _].
        assert (Hd : in_dom (y :: l)) by now constructor.
        rewrite Forall_forall in Hd. now apply Hd.
      * apply Forall_forall. intros z Hz.
        change (In z (filter q (y :: l))) in Hz.
        apply filter_In in Hz. destruct Hz as [[<- | Hz] _]; [exact Hge|].
        rewrite Forall_forall in Hall. specialize (Hall z Hz). cbn in Hall.
        lia.
Qed.

Lemma list_sort_filter (q : K * A -> bool) (l s : list (K * A)) :
  in_dom l -> list_sort lt l = Ok s ->
  list_sort lt (filter q l) = Ok (filter q s).
Proof.
  intros Hl; revert s; induction Hl as [|x l Hx Hl IH]; intros s.
  - cbn. now intros [= <-].
  - cbn [list_sort].
    destruct (list_sort_spec A K lt dom pos lt_dom l Hl)
      as (s' & Hs' & Hperm & Hasc & _).
    rewrite Hs'. cbn [bind]. intros Hins.
    assert (Hds' : in_dom s') by exact (Permutation_Forall Hperm Hl).
    pose proof (insert_filter q x s' s Hx Hds' Hasc Hins) as Hq.
    specialize (IH s' Hs'). cbn [filter].
    destruct (q x).
    + cbn [list_sort]. rewrite IH. cbn [bind]. exact Hq.
    + now rewrite IH, Hq.
Qed.

Variable key : A -> result K.
Variable f : A -> K.
Hypothesis key_total : forall x, key x = Ok (f x).

Lemma decorated_filter (p : A -> bool) (l : list A) :
  map (fun x => (f x, x)) (filter p l)
  = filter (fun d : K * A => p (snd d)) (map (fun x => (f x, x)) l).
Proof.
  induction l as [|x l IH]; [reflexivity|].
  cbn [filter map snd]. destruct (p x); cbn [map]; now rewrite IH.
Qed.

Lemma items_filter (p : A -> bool) (s : list (K * A)) :
  map snd (filter (fun d : K * A => p (snd d)) s) = filter p (map snd s).
Proof.
  induction s as [|d s IH]; [reflexivity|].
  cbn [filter map]. destruct (p (snd d)); cbn [map]; now rewrite IH.
Qed.

(** Sorting the kept part of a list gives the kept part of the sorted
    list. *)
Lemma sorted_filter (p : A -> bool) (l out : list A) (reverse : bool) :
  Forall (fun x => dom (f x)) l ->
  sorted lt l key reverse = Ok out ->
  sorted lt (filter p l) key reverse = Ok (filter p out).
Proof.
  intros Hl. unfold sorted.
  rewrite !(decorate_total _ _ key f _ key_total). cbn [bind].
  set (d := map (fun x => (f x, x)) l).
  assert (Hd' : in_dom (if reverse then rev d else d)).
  { assert (Hd : in_dom d) by (unfold d; apply Forall_map; exact Hl).
    destruct reverse; [now apply Forall_rev | exact Hd]. }
  destruct (list_sort lt (if reverse then rev d else d)) as [s|e] eqn:Hs;
    cbn [bind]; [|discriminate].
  intros [= <-].
  pose proof (list_sort_filter (fun d : K * A => p (snd d)) _ _ Hd' Hs) as Hf.
  rewrite decorated_filter. fold d.
  destruct reverse.
  - rewrite <- filter_rev, Hf. cbn [bind].
    now rewrite <- items_filter, filter_rev.
  - rewrite Hf. cbn [bind]. now rewrite items_filter.
Qed.

(** A list already in order is returned as it is. *)
Lemma sorted_in_order (l : list A) (reverse : bool) :
  Forall (fun x => dom (f x)) l ->
  StronglySorted
    (fun x y => if reverse then (pos (f y) <= pos (f x))%Z
                else (pos (f x) <= pos (f y))%Z) l ->
  sorted lt l key reverse = Ok l.
Proof.
  intros Hl Hs. unfold sorted.
  rewrite (decorate_total _ _ key f _ key_total). cbn [bind].
  set (g := fun x => (f x, x)).
  assert (Hd : in_dom (map g l)) by (apply Forall_map; exact Hl).
  assert (Hitems : map snd (map g l) = l).
  { rewrite map_map. apply map_id. }
  destruct reverse.
  - rewrite list_sort_ascending.
    + cbn [bind]. now rewrite rev_involutive, Hitems.
    + now apply Forall_rev.
    + apply (StronglySorted_rev
               (fun p q : K * A => (pos (fst q) <= pos (fst p))%Z)).
      apply StronglySorted_map. exact Hs.
  - rewrite list_sort_ascending.
    + cbn [bind]. now rewrite Hitems.
    + exact Hd.
    + apply StronglySorted_map. exact Hs.
Qed.

End SortAgain.

Lemma StronglySorted_filter {A : Type} (R : A -> A -> Prop) (p : A -> bool) l :
  StronglySorted R l -> StronglySorted R (filter p l).
Proof.
  induction 1 as [|a l Hl IH Ha]; cbn [filter]; [constructor|].
  destruct (p a); [|exact IH]. constructor; [exact IH|].
  apply Forall_forall. intros x Hx. apply filter_In in Hx.
  rewrite Forall_forall in Ha. now apply Ha.
Qed.

(** X12: sorting is idempotent: when the dates can be compared, sorting
    the result again in the same direction returns it unchanged. *)
Theorem sort_twice :
  forall (date_parser_parse : str -> result datetime) articles reverse,
    comparable (map (date_of date_parser_parse) articles) = true ->
    exists out,
      sort_articles_by_date date_parser_parse articles reverse = Ok out
      /\ sort_articles_by_date date_parser_parse out reverse = Ok out.
Proof.
  intros parse articles reverse Hc.
  destruct (sort_comparable_dates parse articles reverse Hc)
    as (out & H & Hperm & Hsorted & _).
  exists out. split; [exact H|].
  apply comparable_cases in Hc. rewrite !Forall_map in Hc.
  unfold sort_articles_by_date. destruct Hc as [Hk | Hk].
  - apply (sorted_in_order article datetime datetime_lt _ rank lt_naive
             _ _ (sort_key_total parse)); [|exact Hsorted].
    exact (Permutation_Forall Hperm Hk).
  - apply (sorted_in_order article datetime datetime_lt _ rank lt_aware
             _ _ (sort_key_total parse)); [|exact Hsorted].
    exact (Permutation_Forall Hperm Hk).
Qed.

Lemma sort_twice_sample :
  comparable (map (date_of dateutil_sample)
                [titled "first"; dated "2024-01-01"; titled "second"])
  = true
  /\ exists out,
       sort_articles_by_date dateutil_sample
         [titled "first"; dated "2024-01-01"; titled "second"] true
       = Ok out
       /\ sort_articles_by_date dateutil_sample out true = Ok out.
Proof.
  split; [reflexivity|].
  exact (sort_twice dateutil_sample
           [titled "first"; dated "2024-01-01"; titled "second"] true eq_refl).
Defined.

(** X13: sorting and filtering commute: when the dates can be compared,
    sorting the articles kept for a keyword returns the articles that
    the filter keeps of the sorted list. *)
Theorem sort_of_filtered :
  forall (db : Text.unicode_db)
         (date_parser_parse : str -> result datetime)
         articles keyword reverse,
    comparable (map (date_of date_parser_parse) articles) = true ->
    exists out,
      sort_articles_by_date date_parser_parse articles reverse = Ok out
      /\ sort_articles_by_date date_parser_parse
           (filter_articles db articles keyword) reverse
         = Ok (filter_articles db out keyword).
Proof.
  intros db parse articles keyword reverse Hc.
  destruct (sort_comparable_dates parse articles reverse Hc) as (out & H & _).
  exists out. split; [exact H|].
  apply comparable_cases in Hc. rewrite !Forall_map in Hc.
  unfold sort_articles_by_date, filter_articles in *. destruct Hc as [Hk | Hk].
  - exact (sorted_filter article datetime datetime_lt _ rank lt_naive
             _ _ (sort_key_total parse) _ articles out reverse Hk H).
  - exact (sorted_filter article datetime datetime_lt _ rank lt_aware
             _ _ (sort_key_total parse) _ articles out reverse Hk H).
Qed.

Lemma sort_of_filtered_sample :
  comparable (map (date_of dateutil_sample)
                [titled "AI first"; dated "2024-01-01"; titled "ai second"])
  = true
  /\ exists out,
       sort_articles_by_date dateutil_sample
         [titled "AI first"; dated "2024-01-01"; titled "ai second"] true
       = Ok out
       /\ sort_articles_by_date dateutil_sample
            (filter_articles unicode_sample
               [titled "AI first"; dated "2024-01-01"; titled "ai second"]
               "ai") true
          = Ok (filter_articles unicode_sample out "ai").
Proof.
  split; [reflexivity|].
  exact (sort_of_filtered unicode_sample dateutil_sample
           [titled "AI first"; dated "2024-01-01"; titled "ai second"]
           "ai" true eq_refl).
Defined.

(** X14: filtering keeps the order of the dates: the articles kept of a
    list that is newest first (or oldest first) are newest first (or
    oldest first). *)
Theorem filter_keeps_date_order :
  forall (db : Text.unicode_db)
         (date_parser_parse : str -> result datetime)
         reverse articles keyword,
    in_date_order date_parser_parse reverse articles ->
    in_date_order date_parser_parse reverse
      (filter_articles db articles keyword).
Proof.
  intros db parse reverse articles keyword H.
  unfold in_date_order, filter_articles. now apply StronglySorted_filter.
Qed.

Lemma filter_keeps_date_order_sample :
  in_date_order dateutil_sample true
    [dated "2024-01-01"; dated "2023-06-15 12:00:00"; dated ""]
  /\ in_date_order dateutil_sample true
       (filter_articles unicode_sample
          [dated "2024-01-01"; dated "2023-06-15 12:00:00"; dated ""] "t").
Proof.
  assert (H : in_date_order dateutil_sample true
                [dated "2024-01-01"; dated "2023-06-15 12:00:00"; dated ""]).
  { unfold in_date_order. repeat constructor; cbn; lia. }
  split; [exact H|].
  exact (filter_keeps_date_order unicode_sample dateutil_sample true
           [dated "2024-01-01"; dated "2023-06-15 12:00:00"; dated ""] "t" H).
Defined.

(** ** Filter: keywords *)

Lemma contains_trans a b c :
  Text.contains a b = true -> Text.contains b c = true ->
  Text.contains a c = true.
Proof.
  rewrite !contains_iff. intros (x & y & ->) (u & v & ->).
  exists (u ++ x)%str, (y ++ v)%str.
  now rewrite !append_assoc.
Qed.

Lemma filter_all {A : Type} (p : A -> bool) (l : list A) :
  Forall (fun x => p x = true) l -> filter p l = l.
Proof.
  induction 1 as [|x l Hx _ IH]; cbn [filter]; [reflexivity|].
  now rewrite Hx, IH.
Qed.

Lemma filter_swap {A : Type} (p q : A -> bool) (l : list A) :
  filter p (filter q l) = filter q (filter p l).
Proof.
  induction l as [|x l IH]; [reflexivity|].
  cbn [filter]. destruct (p x) eqn:Hp, (q x) eqn:Hq; cbn [filter];
    rewrite ?Hp, ?Hq, IH; reflexivity.
Qed.

(** X15: the case of an ASCII keyword does not matter: two keywords of
    ASCII text that are equal up to the case of their letters keep the
    same articles, whatever the text of the articles. *)
Theorem filter_keyword_case :
  forall (db : Text.unicode_db) articles keyword1 keyword2,
    Text.isascii keyword1 = true ->
    equal_ignoring_case keyword1 keyword2 ->
    filter_articles db articles keyword1 = filter_articles db articles keyword2.
Proof.
  intros db articles keyword1 keyword2 H1 H.
  assert (H2 : Text.isascii keyword2 = true).
  { apply (equal_ignoring_case_isascii keyword2 keyword1); [|exact H1].
    apply equal_ignoring_case_iff. symmetry.
    now apply equal_ignoring_case_iff. }
  apply equal_ignoring_case_iff in H.
  unfold filter_articles.
  now rewrite (lower_of_ascii db _ H1), (lower_of_ascii db _ H2), H.
Qed.

Lemma filter_keyword_case_sample :
  Text.isascii "TechNology" = true
  /\ equal_ignoring_case "TechNology" "technology"
  /\ filter_articles unicode_sample
       [titled "New technology"; titled "Σports"] "TechNology"
     = filter_articles unicode_sample
         [titled "New technology"; titled "Σports"] "technology".
Proof.
  assert (H : equal_ignoring_case "TechNology" "technology").
  { apply equal_ignoring_case_iff. reflexivity. }
  split; [reflexivity|]. split; [exact H|].
  exact (filter_keyword_case unicode_sample
           [titled "New technology"; titled "Σports"]
           "TechNology" "technology" eq_refl H).
Defined.

(** X16: a shorter ASCII keyword keeps more: when a keyword of ASCII
    text occurs in another (the case of the letters aside), every
    article kept for the longer one is kept for the shorter one,
    whatever the text of the articles. *)
Theorem filter_narrower_keyword :
  forall (db : Text.unicode_db) articles short long,
    Text.isascii short = true ->
    Text.isascii long = true ->
    occurs_ignoring_case short long ->
    filter_articles db (filter_articles db articles long) short
    = filter_articles db articles long.
Proof.
  intros db articles short long Hs Hl H.
  apply contains_lower_ascii_iff in H.
  rewrite <- (lower_of_ascii db _ Hs), <- (lower_of_ascii db _ Hl) in H.
  unfold filter_articles. apply filter_all.
  apply Forall_forall. intros a Ha. apply filter_In in Ha.
  destruct Ha as [_ Ha]. unfold matches in *.
  apply orb_true_iff in Ha. apply orb_true_iff.
  destruct Ha as [Ha | Ha]; [left | right];
    exact (contains_trans _ _ _ H Ha).
Qed.

Lemma filter_narrower_keyword_sample :
  Text.isascii "Intelligence" = true
  /\ Text.isascii "artificial intelligence" = true
  /\ occurs_ignoring_case "Intelligence" "artificial intelligence"
  /\ filter_articles unicode_sample
       (filter_articles unicode_sample
          [titled "Artificial Intelligence now"; titled "Intelligence report"]
          "artificial intelligence")
       "Intelligence"
     = filter_articles unicode_sample
         [titled "Artificial Intelligence now"; titled "Intelligence report"]
         "artificial intelligence".
Proof.
  assert (H : occurs_ignoring_case "Intelligence" "artificial intelligence").
  { apply contains_lower_ascii_iff. reflexivity. }
  split; [reflexivity|]. split; [reflexivity|]. split; [exact H|].
  exact (filter_narrower_keyword unicode_sample
           [titled "Artificial Intelligence now"; titled "Intelligence report"]
           "Intelligence" "artificial intelligence" eq_refl eq_refl H).
Defined.

(** X17: two filters can be applied in either order, and the articles
    kept are those of the input that match both keywords. *)
Theorem filter_two_keywords :
  forall (db : Text.unicode_db) articles keyword1 keyword2,
    filter_articles db (filter_articles db articles keyword1) keyword2
    = filter_articles db (filter_articles db articles keyword2) keyword1
    /\ forall a,
         In a (filter_articles db (filter_articles db articles keyword1)
                 keyword2)
         <-> In a articles
             /\ matches db (Text.lower db keyword1) a = true
             /\ matches db (Text.lower db keyword2) a = true.
Proof.
  intros db articles keyword1 keyword2. unfold filter_articles. split.
  - apply filter_swap.
  - intros a. rewrite !filter_In. tauto.
Qed.

(** ** Presenter: limits, numbering and sizes *)

Lemma text_length_app (s t : str) :
  Text.length (s ++ t) = Text.length s + Text.length t.
Proof. induction s as [|c s IH]; simpl; [reflexivity | now rewrite IH]. Qed.

Lemma slice_to_negative {A : Type} (l : list A) (stop : Z) :
  (stop < 0)%Z ->
  slice_to l stop = firstn (List.length l - Z.to_nat (- stop)) l.
Proof.
  intros H. unfold slice_to.
  destruct (Z.ltb_spec stop 0) as [_|Hge]; [|lia].
  f_equal. lia.
Qed.

Lemma entries_length (items : list (nat * article)) :
  List.length (flat_map entry_lines items) = 5 * List.length items.
Proof.
  induction items as [|[idx a] items IH]; [reflexivity|].
  cbn [flat_map]. rewrite length_app, IH. cbn [entry_lines List.length]. lia.
Qed.

Lemma entries_slept (items : list (nat * article)) :
  slept (flat_map entry_lines items) = 0%N.
Proof.
  induction items as [|[idx a] items IH]; [reflexivity|].
  cbn [flat_map]. now rewrite slept_app, IH.
Qed.

Lemma display_unfold articles limit out :
  display_articles articles limit out
  = (tt, out ++ header articles limit
             ++ flat_map entry_lines (enumerate 1 (slice_to articles limit))).
Proof.
  unfold display_articles. now rewrite display_loop, <- app_assoc.
Qed.

Lemma entry_title_line (l : list article) : forall start i a,
  nth_error l i = Some a ->
  nth_error (flat_map entry_lines (enumerate start l)) (5 * i)
  = Some (Print (Text.of_nat (start + i) ++ ". [" ++ source a ++ "] "
                 ++ title a)).
Proof.
  induction l as [|x l IH]; intros start i a H.
  - destruct i; discriminate H.
  - destruct i as [|i].
    + injection H as ->. cbn. now rewrite Nat.add_0_r.
    + cbn [nth_error] in H. cbn [enumerate flat_map].
      replace (5 * S i) with (List.length (entry_lines (start, x)) + 5 * i)
        by (cbn; lia).
      rewrite nth_error_app2 by lia.
      replace (List.length (entry_lines (start, x)) + 5 * i
               - List.length (entry_lines (start, x))) with (5 * i) by lia.
      rewrite (IH (S start) i a H).
      now replace (S start + i) with (start + S i) by lia.
Qed.

(** X18: a negative limit counts from the end of the list: the
    presenter prints all the articles but the last -limit ones (none
    when there are no more than that), while its header announces the
    negative limit itself as the number displayed. *)
Theorem display_negative_limit_drops_last :
  forall articles limit out,
    (limit < 0)%Z ->
    let shown := firstn (List.length articles - Z.to_nat (- limit)) articles in
    display_articles articles limit out
    = (tt, out ++ header articles limit
               ++ flat_map entry_lines (enumerate 1 shown))
    /\ List.length shown = List.length articles - Z.to_nat (- limit)
    /\ nth_error (header articles limit) 1
       = Some (Print ("Displaying " ++ Text.of_Z limit ++ " of "
                      ++ Text.of_nat (List.length articles)
                      ++ " total articles")).
Proof.
  intros articles limit out H shown.
  rewrite display_unfold, slice_to_negative by exact H.
  split; [reflexivity|]. split.
  - unfold shown. apply firstn_length_le. lia.
  - unfold header. cbn [nth_error]. now rewrite Z.min_l by lia.
Qed.

Lemma display_negative_limit_drops_last_sample :
  (-2 < 0)%Z
  /\ display_articles [titled "a"; titled "b"; titled "c"] (-2) []
     = (tt, header [titled "a"; titled "b"; titled "c"] (-2)
            ++ flat_map entry_lines (enumerate 1 [titled "a"])).
Proof.
  assert (H : (-2 < 0)%Z) by lia.
  split; [exact H|].
  exact (proj1 (display_negative_limit_drops_last
                  [titled "a"; titled "b"; titled "c"] (-2) [] H)).
Defined.

(** X19: whatever the limit, the presenter keeps the output that was
    there, adds three header lines and five lines for each article of
    the slice, never more articles than the list holds, and makes no
    pause. *)
Theorem display_output_size :
  forall articles limit out,
    let out' := snd (display_articles articles limit out) in
    let shown := List.length (slice_to articles limit) in
    firstn (List.length out) out' = out
    /\ List.length out' = List.length out + 3 + 5 * shown
    /\ shown <= List.length articles
    /\ slept out' = slept out.
Proof.
  intros articles limit out out' shown. unfold out', shown.
  rewrite display_unfold. cbn [snd]. repeat split.
  - rewrite firstn_app, Nat.sub_diag, firstn_all. cbn [firstn].
    apply app_nil_r.
  - rewrite !length_app, entries_length, enumerate_length.
    cbn [header List.length]. lia.
  - unfold slice_to. destruct (limit <? 0)%Z; rewrite length_firstn; lia.
  - rewrite !slept_app, entries_slept. cbn [header slept]. lia.
Qed.

(** X20: the entries are numbered from 1 in the order of the list: the
    first line of the entry of the article at position i of the slice
    starts with i + 1, and shows its source and its title. *)
Theorem display_numbers_entries :
  forall articles limit out i a,
    nth_error (slice_to articles limit) i = Some a ->
    nth_error (snd (display_articles articles limit out))
              (List.length out + 3 + 5 * i)
    = Some (Print (Text.of_nat (i + 1) ++ ". [" ++ source a ++ "] "
                   ++ title a)).
Proof.
  intros articles limit out i a H.
  rewrite display_unfold. cbn [snd].
  rewrite nth_error_app2 by lia.
  replace (List.length out + 3 + 5 * i - List.length out)
    with (List.length (header articles limit) + 5 * i) by (cbn; lia).
  rewrite nth_error_app2 by lia.
  replace (List.length (header articles limit) + 5 * i
           - List.length (header articles limit)) with (5 * i) by lia.
  rewrite (entry_title_line _ 1 i a H).
  now replace (1 + i) with (i + 1) by lia.
Qed.

Lemma display_numbers_entries_sample :
  nth_error (slice_to [titled "a"; titled "b"; titled "c"] 2) 1
  = Some (titled "b")
  /\ nth_error (snd (display_articles [titled "a"; titled "b"; titled "c"] 2 []))
               8
     = Some (Print "2. [S] b").
Proof.
  split; [reflexivity|].
  exact (display_numbers_entries
           [titled "a"; titled "b"; titled "c"] 2 [] 1 (titled "b") eq_refl).
Defined.

(** X21: the description line of an entry is never longer than 156
    characters: three spaces, at most 150 characters of the description
    and the three dots. *)
Theorem description_line_bound :
  forall idx a,
    exists line,
      nth_error (entry_lines (idx, a)) 3 = Some (Print line)
      /\ Text.length line
         = 6 + Nat.min 150 (Text.length (description a))
      /\ Text.length line <= 156.
Proof.
  intros idx a. eexists. split; [reflexivity|].
  assert (H : Text.length ("   " ++ Text.take 150 (description a) ++ "...")
              = 6 + Nat.min 150 (Text.length (description a))).
  { rewrite !text_length_app, take_length. cbn [Text.length]. lia. }
  split; [exact H | rewrite H; lia].
Qed.

(** ** The pipeline *)

Lemma display_snd articles limit out :
  snd (display_articles articles limit out)
  = out ++ header articles limit
        ++ flat_map entry_lines (enumerate 1 (slice_to articles limit)).
Proof. now rewrite display_unfold. Qed.

Lemma display_slept articles limit out :
  slept (snd (display_articles articles limit out)) = slept out.
Proof.
  rewrite display_snd, !slept_app, entries_slept. cbn [header slept]. lia.
Qed.

Lemma display_length articles limit out :
  (0 <= limit)%Z ->
  List.length (snd (display_articles articles limit out))
  <= List.length out + 3 + 5 * Z.to_nat limit.
Proof.
  intros H. rewrite display_snd, !length_app, entries_length, enumerate_length.
  unfold slice_to. destruct (Z.ltb_spec limit 0); [lia|].
  rewrite length_firstn. cbn [header List.length]. lia.
Qed.

Lemma main_unfold db fp dp out :
  main db fp dp out
  = let fetched := out ++ banner ++ flat_map (source_log fp) RSS_FEEDS in
    match sort_articles_by_date dp (flat_map (contribution fp) RSS_FEEDS) true
    with
    | Raise e => (Raise e, fetched)
    | Ok sorted_articles =>
        let tech_news := filter_articles db sorted_articles "technology" in
        let ai_news :=
          filter_articles db sorted_articles "artificial intelligence" in
        (Ok tt,
         snd (display_articles ai_news 5
                (snd (display_articles tech_news 10
                        (snd (display_articles sorted_articles 15 fetched)
                         ++ filter_report "technology" tech_news))
                 ++ filter_report "artificial intelligence" ai_news)))
    end.
Proof.
  unfold main. rewrite fetch_all_feeds_unfold, <- app_assoc.
  destruct (sort_articles_by_date dp (flat_map (contribution fp) RSS_FEEDS) true);
    reflexivity.
Qed.

Lemma no_source_no_article fp feed_dict :
  (forall item, In item feed_dict -> fails fp item) ->
  flat_map (contribution fp) feed_dict = [].
Proof.
  induction feed_dict as [|item rest IH]; intros H; [reflexivity|].
  cbn [flat_map]. rewrite IH by (intros i Hi; apply H; now right).
  destruct (H item (or_introl eq_refl)) as [e He].
  unfold contribution. now rewrite He.
Qed.

(** X22: the pipeline returns exactly when the dates of the fetched
    articles can be compared; otherwise it leaves with the TypeError of
    the sorter after the banner and the fetching, and displays
    nothing. *)
Theorem main_returns_iff_comparable :
  forall (db : Text.unicode_db)
         (feedparser_parse : str -> result feed)
         (date_parser_parse : str -> result datetime) out,
    let articles := fst (fetch_all_feeds feedparser_parse RSS_FEEDS []) in
    (comparable (map (date_of date_parser_parse) articles) = true ->
     fst (main db feedparser_parse date_parser_parse out) = Ok tt)
    /\ (comparable (map (date_of date_parser_parse) articles) = false ->
        main db feedparser_parse date_parser_parse out
        = (Raise naive_aware_error,
           out ++ banner
               ++ flat_map (source_log feedparser_parse) RSS_FEEDS)).
Proof.
  intros db fp dp out articles. unfold articles.
  rewrite fetch_all_feeds_unfold, main_unfold. cbn [fst]. cbv zeta. split.
  - intros Hc.
    destruct (sort_comparable_dates dp _ true Hc) as (sorted_articles & H & _).
    now rewrite H.
  - intros Hc. now rewrite (sort_incomparable_dates dp _ true Hc).
Qed.

(** X23: whatever the feeds answer, the pipeline pauses for two seconds
    in all: half a second after each of the four sources of the
    registry, and at no other place. *)
Theorem main_pauses :
  forall (db : Text.unicode_db)
         (feedparser_parse : str -> result feed)
         (date_parser_parse : str -> result datetime) out,
    slept (snd (main db feedparser_parse date_parser_parse out))
    = (slept out + 2000)%N.
Proof.
  intros db fp dp out. rewrite main_unfold. cbv zeta.
  assert (Hfetched :
            slept (out ++ banner ++ flat_map (source_log fp) RSS_FEEDS)
            = (slept out + 2000)%N).
  { rewrite !slept_app, source_logs_slept. reflexivity. }
  destruct (sort_articles_by_date dp (flat_map (contribution fp) RSS_FEEDS) true)
    as [sorted_articles|e]; cbn [snd]; [|exact Hfetched].
  rewrite display_slept, slept_app, display_slept, slept_app, display_slept.
  rewrite Hfetched. cbn [filter_report slept]. lia.
Qed.

(** X24: when no source of the registry can be fetched the pipeline
    still runs to its end: after the banner and the four error lines it
    prints three empty displays, each announcing 0 of 0 articles, and
    two reports of 0 articles found. *)
Theorem main_without_feeds :
  forall (db : Text.unicode_db)
         (feedparser_parse : str -> result feed)
         (date_parser_parse : str -> result datetime) out,
    (forall item, In item RSS_FEEDS -> fails feedparser_parse item) ->
    main db feedparser_parse date_parser_parse out
    = (Ok tt,
       out ++ banner
           ++ flat_map (source_log feedparser_parse) RSS_FEEDS
           ++ header [] 15
           ++ filter_report "technology" []
           ++ header [] 10
           ++ filter_report "artificial intelligence" []
           ++ header [] 5).
Proof.
  intros db fp dp out H. rewrite main_unfold.
  rewrite (no_source_no_article fp RSS_FEEDS H). cbv zeta.
  change (sort_articles_by_date dp [] true) with (@Ok (list article) []).
  cbv beta iota.
  change (filter_articles db [] "technology") with (@nil article).
  change (filter_articles db [] "artificial intelligence") with (@nil article).
  rewrite !display_snd.
  change (slice_to (@nil article) 15) with (@nil article).
  change (slice_to (@nil article) 10) with (@nil article).
  change (slice_to (@nil article) 5) with (@nil article).
  cbn [enumerate flat_map]. rewrite !app_nil_r, <- !app_assoc. reflexivity.
Qed.

Lemma main_without_feeds_offline :
  (forall item, In item RSS_FEEDS -> fails feedparser_offline item)
  /\ fst (main unicode_sample feedparser_offline dateutil_sample []) = Ok tt
  /\ In "Displaying 0 of 0 total articles"
        (printed (snd (main unicode_sample feedparser_offline dateutil_sample []))).
Proof.
  assert (H : forall item, In item RSS_FEEDS -> fails feedparser_offline item).
  { intros item _. eexists. reflexivity. }
  split; [exact H|].
  rewrite (main_without_feeds unicode_sample feedparser_offline dateutil_sample [] H).
  split; [reflexivity|].
  cbn. do 12 right. left. reflexivity.
Defined.

(** X25: however many articles the feeds return, the pipeline prints a
    bounded output: at most 15, 10 and 5 entries in its three displays,
    so at most 180 events after the output it started with. *)
Theorem main_output_bound :
  forall (db : Text.unicode_db)
         (feedparser_parse : str -> result feed)
         (date_parser_parse : str -> result datetime) out,
    List.length (snd (main db feedparser_parse date_parser_parse out))
    <= List.length out + 180.
Proof.
  intros db fp dp out. rewrite main_unfold. cbv zeta.
  assert (Hfetched :
            List.length (out ++ banner ++ flat_map (source_log fp) RSS_FEEDS)
            = List.length out + 15).
  { rewrite !length_app, source_logs_length. cbn. lia. }
  destruct (sort_articles_by_date dp (flat_map (contribution fp) RSS_FEEDS) true)
    as [sorted_articles|e]; cbn [snd]; [|lia].
  set (tech_news := filter_articles db sorted_articles "technology").
  set (ai_news := filter_articles db sorted_articles "artificial intelligence").
  pose proof (display_length sorted_articles 15
                (out ++ banner ++ flat_map (source_log fp) RSS_FEEDS)
                ltac:(lia)) as H1.
  set (out1 := snd (display_articles sorted_articles 15
                      (out ++ banner ++ flat_map (source_log fp) RSS_FEEDS)))
    in *.
  pose proof (display_length tech_news 10
                (out1 ++ filter_report "technology" tech_news)
                ltac:(lia)) as H2.
  set (out2 := snd (display_articles tech_news 10
                      (out1 ++ filter_report "technology" tech_news))) in *.
  pose proof (display_length ai_news 5
                (out2 ++ filter_report "artificial intelligence" ai_news)
                ltac:(lia)) as H3.
  rewrite length_app in H2, H3. cbn [filter_report List.length] in H2, H3.
  change (Z.to_nat 15) with 15 in H1. change (Z.to_nat 10) with 10 in H2.
  change (Z.to_nat 5) with 5 in H3.
  lia.
Qed.

(** Two runs of the pipeline: when every feed carries an entry dated
    with a time zone and an entry without a date, the sorter raises and
    nothing is displayed; when every entry is dated, the pipeline
    returns. *)
Lemma main_returns_iff_comparable_sample :
  main unicode_sample feedparser_undated dateutil_sample []
  = (Raise naive_aware_error,
     banner ++ flat_map (source_log feedparser_undated) RSS_FEEDS)
  /\ fst (main unicode_sample feedparser_dated dateutil_sample []) = Ok tt.
Proof.
  split.
  - exact (proj2 (main_returns_iff_comparable unicode_sample
                    feedparser_undated dateutil_sample []) eq_refl).
  - exact (proj1 (main_returns_iff_comparable unicode_sample
                    feedparser_dated dateutil_sample []) eq_refl).
Defined.
